(** * SQUAD core models: aggregation, history and project-status checkpoints

    A shallow embedding of [squad/core/models.py].  Django model classes are
    records, a model instance is the row with its foreign keys resolved (the
    object graph the ORM hands to Python), the database is the record of the
    tables, and the querysets used by the code ([filter], [exclude],
    [order_by], [last]) are list functions over a table.  Python exceptions
    are an error monad; the clock ([timezone.now]) is an explicit argument. *)

From stdpp Require Import gmap strings list sorting.
From Stdlib Require Import ZArith Ascii Sorting Permutation.
From Stdlib Require Import PrimFloat FloatOps SpecFloat FloatAxioms.

Open Scope Z_scope.

(** * The model *)

(** ** Python values and exceptions *)

Inductive exn :=
  | AttributeError      (* attribute access on [None] *)
  | ValueError          (* [json.JSONDecodeError] is a [ValueError] *)
  | ZeroDivisionError
  | OverflowError
  | TypeError.          (* an operation on a value of the wrong type *)

Inductive result (A : Type) :=
  | Ok (a : A)
  | Raise (e : exn).
Arguments Ok {A} a.
Arguments Raise {A} e.

#[global] Instance result_ret : MRet result := λ A a, Ok a.
#[global] Instance result_bind : MBind result := λ A B k r,
  match r with
  | Ok a => k a
  | Raise e => Raise e
  end.

(** [o.attr] on a nullable reference [o]. *)
Definition getattr {A} (o : option A) : result A :=
  match o with
  | Some a => Ok a
  | None => Raise AttributeError
  end.

(** Truthiness of a [str]-or-[None] attribute: [None] and [''] are falsy. *)
Definition truthy (s : option string) : bool :=
  match s with
  | None => false
  | Some s => negb (String.eqb s "")
  end.

(** A point in time, in microseconds since the epoch (the resolution of
    [datetime]); [relativedelta(minutes=n)] is the span of [n] minutes. *)
Definition datetime := Z.

Definition relativedelta_minutes (n : Z) : Z := n * 60000000.

(** ** The models *)

Record Group := mkGroup
  { group_id : Z;
    group_slug : string }.

Record Project := mkProject
  { project_id : Z;
    project_group : Group;
    project_slug : string;
    build_completion_threshold : Z }.

Record Build := mkBuild
  { build_id : Z;
    build_project : Project;
    build_name : string;
    build_version : string;
    build_datetime : datetime }.

Record Environment := mkEnvironment
  { environment_id : Z;
    environment_slug : string }.

Record TestRun := mkTestRun
  { test_run_id : Z;
    test_run_build : Build;
    test_run_environment : Environment;
    metadata_file : option string }.

Record Suite := mkSuite
  { suite_id : Z;
    suite_slug : string }.

Record Test := mkTest
  { test_id : Z;
    test_test_run : TestRun;
    test_suite : Suite;
    test_name : string;
    test_result : option bool }.

Record Status := mkStatus
  { tests_pass : Z;
    tests_fail : Z }.

#[warnings="-register-all"]
Inductive ProjectStatus := mkProjectStatus
  { ps_id : Z;
    ps_build : option Build;
    ps_previous : option ProjectStatus;
    ps_created_at : datetime }.

(** The tables, each in primary-key order. *)
Record Database := mkDatabase
  { builds_table : list Build;
    test_runs_table : list TestRun;
    tests_table : list Test;
    project_statuses : list ProjectStatus }.

(** ** Querysets *)

Section QuerySet.
Context {A : Type} (key : A → Z).

Fixpoint insert_by (a : A) (l : list A) : list A :=
  match l with
  | [] => [a]
  | b :: l' => if key a <=? key b then a :: l else b :: insert_by a l'
  end.

(** [ORDER BY key ASC]: a stable sort of the rows. *)
Definition order_by (l : list A) : list A := foldr insert_by [] l.
End QuerySet.

(** The order of the rows of [order_by key]. *)
Definition key_le {A} (key : A → Z) (a b : A) : Prop := key a ≤ key b.

(** [ORDER BY key DESC]. *)
Definition order_by_desc {A} (key : A → Z) : list A → list A :=
  order_by (λ a, - key a).

(** [Model.__eq__]: two instances of one model are equal when their primary
    keys are. *)
Definition Build_eqb (a b : Build) : bool := build_id a =? build_id b.

(** The related manager [project.builds]; [Build.Meta.ordering] is
    [['datetime']]. *)
Definition project_builds (db : Database) (project : Project) : list Build :=
  order_by build_datetime
    (filter (λ b, project_id (build_project b) = project_id project)
            (builds_table db)).

(** ** [TestRun] and metadata mappings

    Metadata values are JSON values compared with [==]; keys are strings.
    [json_loads] is the standard library's [json.loads], which raises on a
    text that is not valid JSON. *)

Module TestRun.

(** [TestRun.metadata] *)
Definition metadata {V : Type} (json_loads : string → result (gmap string V))
    (self : TestRun) : result (gmap string V) :=
  if truthy (metadata_file self)
  then json_loads (default ""%string (metadata_file self))
  else Ok ∅.

End TestRun.

Section Metadata.
Context {V : Type} `{EqDecision V}.
Variable json_loads : string → result (gmap string V).

(** [{k: d1[k] for k in d1 if (k in d2 and d2[k] == d1[k])}] *)
Definition dict_intersection (d1 d2 : gmap string V) : gmap string V :=
  filter (λ kv, is_Some (d2 !! kv.1) ∧ d2 !! kv.1 = Some kv.2) d1.

(** One iteration of the loop of [Build.metadata], on the metadata of the
    run at hand. *)
Definition metadata_step (metadata run_metadata : gmap string V)
  : gmap string V :=
  if decide (metadata ≠ ∅)
  then dict_intersection metadata run_metadata
  else run_metadata.

(** The loop of [Build.metadata] over the runs' metadata mappings. *)
Definition metadata_fold (mappings : list (gmap string V)) : gmap string V :=
  foldl metadata_step ∅ mappings.

Fixpoint metadata_loop (runs : list TestRun) (metadata : gmap string V)
  : result (gmap string V) :=
  match runs with
  | [] => Ok metadata
  | test_run :: runs =>
      m ← TestRun.metadata json_loads test_run;
      metadata_loop runs (metadata_step metadata m)
  end.
End Metadata.

(** ** [Build] *)

(** [re.sub('-rc', '~rc', s)]: the pattern has no metacharacter, so every
    non-overlapping occurrence of the three characters, found left to right,
    is replaced. *)
Fixpoint re_sub_rc (s : string) : string :=
  match s with
  | String c1 (String c2 (String c3 rest) as tail) =>
      if Ascii.eqb c1 "-"%char && Ascii.eqb c2 "r"%char && Ascii.eqb c3 "c"%char
      then String "~"%char (String "r"%char (String "c"%char (re_sub_rc rest)))
      else String c1 (re_sub_rc tail)
  | String c rest => String c (re_sub_rc rest)
  | EmptyString => EmptyString
  end.

(** A [Build] instance as Python holds it before [save]: [name], [version]
    and [datetime] may still be [None]. *)
Record BuildInstance := mkBuildInstance
  { inst_project : Project;
    inst_name : option string;
    inst_version : option string;
    inst_datetime : option datetime }.

Module Build.

(** [Build.save]: the instance as handed to [models.Model.save]. *)
Definition save (now : datetime) (self : BuildInstance) : BuildInstance :=
  let self :=
    match inst_datetime self with
    | None => mkBuildInstance (inst_project self) (inst_name self)
                              (inst_version self) (Some now)
    | Some _ => self
    end in
  let self :=
    if truthy (inst_version self) && negb (truthy (inst_name self))
    then mkBuildInstance (inst_project self) (inst_version self)
                         None (inst_datetime self)
    else self in
  let self :=
    if truthy (inst_name self) && negb (truthy (inst_version self))
    then mkBuildInstance (inst_project self) (inst_name self)
                         (re_sub_rc <$> inst_name self) (inst_datetime self)
    else self in
  self.

(** The reverse relations [build.test_runs.all()] and [run.tests.all()]. *)
Definition test_runs (db : Database) (self : Build) : list TestRun :=
  filter (λ r, build_id (test_run_build r) = build_id self)
         (test_runs_table db).

Definition tests (db : Database) (run : TestRun) : list Test :=
  filter (λ t, test_run_id (test_test_run t) = test_run_id run)
         (tests_table db).

(** [summary['failures']]: an [OrderedDict] from environment slug to the
    list of failed tests, as an association list in insertion order. *)
Fixpoint failures_append (env : string) (test : Test)
    (failures : list (string * list Test)) : list (string * list Test) :=
  match failures with
  | [] => [(env, [test])]
  | (k, l) :: failures' =>
      if String.eqb k env then (k, l ++ [test]) :: failures'
      else (k, l) :: failures_append env test failures'
  end.

Record Summary := mkSummary
  { summary_total : Z;
    summary_pass : Z;
    summary_fail : Z;
    summary_missing : Z;
    summary_failures : list (string * list Test) }.

(** The body of the inner loop of [test_summary]. *)
Definition count_test (summary : Summary) (test : Test) : Summary :=
  let summary :=
    match test_result test with
    | Some true =>
        mkSummary (summary_total summary) (summary_pass summary + 1)
          (summary_fail summary) (summary_missing summary)
          (summary_failures summary)
    | Some false =>
        mkSummary (summary_total summary) (summary_pass summary)
          (summary_fail summary + 1) (summary_missing summary)
          (summary_failures summary)
    | None =>
        mkSummary (summary_total summary) (summary_pass summary)
          (summary_fail summary) (summary_missing summary + 1)
          (summary_failures summary)
    end in
  let summary :=
    mkSummary (summary_total summary + 1) (summary_pass summary)
      (summary_fail summary) (summary_missing summary)
      (summary_failures summary) in
  match test_result test with
  | Some false =>
      let env := environment_slug (test_run_environment (test_test_run test)) in
      mkSummary (summary_total summary) (summary_pass summary)
        (summary_fail summary) (summary_missing summary)
        (failures_append env test (summary_failures summary))
  | _ => summary
  end.

(** [Build.test_summary] *)
Definition test_summary (db : Database) (self : Build) : Summary :=
  foldl (λ summary run, foldl count_test summary (tests db run))
        (mkSummary 0 0 0 0 []) (test_runs db self).

(** [Build.metadata] *)
Definition metadata {V} `{EqDecision V}
    (json_loads : string → result (gmap string V))
    (db : Database) (self : Build) : result (gmap string V) :=
  metadata_loop json_loads (test_runs db self) ∅.

End Build.

(** ** Metadata, over every value [json.loads] can return

    [json.loads] returns a [dict] with string keys for a JSON object, and
    another Python value ([None], a number, a [str], a [list]) for any other
    JSON text; [TestRun.metadata] hands on whatever it returns, and
    [Build.metadata] runs its loop on it.  What [if metadata:] and
    [dict_intersection] do with a value that is not such a [dict] is left to
    two parameters, as [json.loads] itself is; on two [dict]s they are the
    test for emptiness and [dict_intersection] above. *)

Inductive json_value (V O : Type) :=
  | JObject (m : gmap string V)
  | JOther (o : O).
Arguments JObject {V O} m.
Arguments JOther {V O} o.

Section AnyValue.
Context {V O : Type} `{EqDecision V}.
Variable json_loads : string → result (json_value V O).
Variable other_truthy : O → bool.
Variable other_intersection :
  json_value V O → json_value V O → result (json_value V O).

(** [TestRun.metadata] *)
Definition TestRun_metadata_value (self : TestRun)
  : result (json_value V O) :=
  if truthy (metadata_file self)
  then json_loads (default ""%string (metadata_file self))
  else Ok (JObject ∅).

(** [if metadata:] *)
Definition value_truthy (metadata : json_value V O) : bool :=
  match metadata with
  | JObject m => bool_decide (m ≠ ∅)
  | JOther o => other_truthy o
  end.

(** [dict_intersection(d1, d2)] *)
Definition value_intersection (d1 d2 : json_value V O)
  : result (json_value V O) :=
  match d1, d2 with
  | JObject m1, JObject m2 => Ok (JObject (dict_intersection m1 m2))
  | _, _ => other_intersection d1 d2
  end.

(** The loop of [Build.metadata]: the property [test_run.metadata] is read
    before [dict_intersection] is called. *)
Fixpoint metadata_loop_value (runs : list TestRun)
    (metadata : json_value V O) : result (json_value V O) :=
  match runs with
  | [] => Ok metadata
  | test_run :: runs =>
      if value_truthy metadata
      then m ← TestRun_metadata_value test_run;
           metadata ← value_intersection metadata m;
           metadata_loop_value runs metadata
      else m ← TestRun_metadata_value test_run;
           metadata_loop_value runs m
  end.

(** [Build.metadata] *)
Definition Build_metadata_value (db : Database) (self : Build)
  : result (json_value V O) :=
  metadata_loop_value (Build.test_runs db self) (JObject ∅).
End AnyValue.

(** ** [Test] *)

Record History := mkHistory
  { since : option Test;
    count : Z;
    last_different : option Test }.

Module Test.

(** The queryset of [Test.history]. *)
Definition previous_tests (db : Database) (self : Test) : list Test :=
  let date := build_datetime (test_run_build (test_test_run self)) in
  order_by_desc (λ t, build_datetime (test_run_build (test_test_run t)))
    (filter (λ t, test_id t ≠ test_id self)
       (filter (λ t,
            suite_id (test_suite t) = suite_id (test_suite self)
            ∧ test_name t = test_name self
            ∧ build_datetime (test_run_build (test_test_run t)) < date
            ∧ environment_id (test_run_environment (test_test_run t))
              = environment_id (test_run_environment (test_test_run self)))
          (tests_table db))).

(** The [for] loop of [Test.history], with its [break]. *)
Fixpoint walk (result : option bool) (tests : list Test)
    (since : option Test) (count : Z) : History :=
  match tests with
  | [] => mkHistory since count None
  | test :: tests =>
      if decide (test_result test = result)
      then walk result tests (Some test) (count + 1)
      else mkHistory since count (Some test)
  end.

(** [Test.history]; [__history__] is the instance's memo, threaded
    through: the value read and the memo after the read. *)
Definition history (db : Database) (self : Test)
    (__history__ : option History) : History * option History :=
  match __history__ with
  | Some h => (h, Some h)
  | None =>
      let h := walk (test_result self) (previous_tests db self) None 0 in
      (h, Some h)
  end.

End Test.

(** ** [Status] *)

(** A Python number: the properties of [Status] return an [int] or a
    [float] (IEEE-754 binary64). *)
Inductive number :=
  | PyInt (z : Z)
  | PyFloat (f : float).

(** The double nearest to an integer, ties to even, as the IEEE-754
    specification of the standard library rounds it. *)
Definition int_float (n : Z) : spec_float :=
  binary_normalize prec emax n 0 false.

(** [float(n)] for an [int]: the nearest double; [OverflowError] when the
    integer is too large for one. *)
Definition py_float (n : Z) : result float :=
  let f := SF2Prim (int_float n) in
  if is_infinity f then Raise OverflowError else Ok f.

(** [a / b] on floats. *)
Definition float_truediv (a b : float) : result float :=
  if PrimFloat.eqb b zero then Raise ZeroDivisionError else Ok (a / b)%float.

Definition float_100 : float := 100%float.

(** [100 * x] and [100 - x] with the [int] 100 on the left. *)
Definition mul_100 (x : number) : number :=
  match x with
  | PyInt z => PyInt (100 * z)
  | PyFloat f => PyFloat (float_100 * f)
  end.

Definition sub_100 (x : number) : number :=
  match x with
  | PyInt z => PyInt (100 - z)
  | PyFloat f => PyFloat (float_100 - f)
  end.

(** [x + y]: an [int] meeting a [float] is converted first. *)
Definition py_add (x y : number) : result number :=
  match x, y with
  | PyInt a, PyInt b => Ok (PyInt (a + b))
  | PyFloat a, PyFloat b => Ok (PyFloat (a + b))
  | PyInt a, PyFloat b => a' ← py_float a; Ok (PyFloat (a' + b))
  | PyFloat a, PyInt b => b' ← py_float b; Ok (PyFloat (a + b'))
  end.

(** [x == n] for a [float] and an [int]: Python compares the exact values. *)
Definition float_eq_int (x : float) (n : Z) : bool :=
  match Prim2SF x with
  | S754_zero _ => n =? 0
  | S754_finite s m e =>
      if 0 <=? e then cond_Zopp s (Zpos m) * 2 ^ e =? n
      else cond_Zopp s (Zpos m) =? n * 2 ^ (- e)
  | _ => false
  end.

(** [x == y] *)
Definition py_eq (x y : number) : bool :=
  match x, y with
  | PyInt a, PyInt b => a =? b
  | PyFloat a, PyFloat b => PrimFloat.eqb a b
  | PyFloat a, PyInt b => float_eq_int a b
  | PyInt a, PyFloat b => float_eq_int b a
  end.

(** [models.IntegerField]: the values safe in every database are those of
    a signed 32-bit integer; a count is one that is not negative. *)
Definition integer_field_max : Z := 2147483647.

Definition is_count (n : Z) : Prop := 0 ≤ n ≤ integer_field_max.

Module Status.

Definition total_tests (self : Status) : Z :=
  tests_pass self + tests_fail self.

Definition pass_percentage (self : Status) : result number :=
  if 0 <? tests_pass self
  then
    a ← py_float (tests_pass self);
    b ← py_float (total_tests self);
    q ← float_truediv a b;
    Ok (mul_100 (PyFloat q))
  else Ok (PyInt 0).

Definition fail_percentage (self : Status) : result number :=
  p ← pass_percentage self;
  Ok (sub_100 p).

Definition has_tests (self : Status) : bool :=
  0 <? tests_pass self + tests_fail self.

End Status.

(** ** [ProjectStatus] *)

Module ProjectStatus.

(** [cls.objects.filter(build__project=project)]: the join drops the
    checkpoints without a build. *)
Definition of_project (db : Database) (project : Project)
  : list ProjectStatus :=
  filter (λ ps, project_id ∘ build_project <$> ps_build ps
                = Some (project_id project))
         (project_statuses db).

(** The primary key of the next row: larger than every key in use. *)
Definition next_pk (db : Database) : Z :=
  1 + foldr Z.max 0 (ps_id <$> project_statuses db).

(** [cls.objects.create(build=build, previous=previous)] *)
Definition objects_create (now : datetime) (build : option Build)
    (previous : option ProjectStatus) (db : Database)
  : ProjectStatus * Database :=
  let row := mkProjectStatus (next_pk db) build previous now in
  (row, mkDatabase (builds_table db) (test_runs_table db) (tests_table db)
                   (project_statuses db ++ [row])).

(** The build [create] looks at: the last of the project's builds older
    than the completion window. *)
Definition candidate (now : datetime) (project : Project) (db : Database)
  : option Build :=
  let completion_window :=
    relativedelta_minutes (build_completion_threshold project) in
  let completed_by := now - completion_window in
  let builds :=
    filter (λ b, build_datetime b < completed_by) (project_builds db project) in
  last builds.

(** The project's latest checkpoint: [last()] of a queryset without an
    ordering goes by primary key. *)
Definition latest (project : Project) (db : Database)
  : option ProjectStatus :=
  last (order_by ps_id (of_project db project)).

(** [ProjectStatus.create] *)
Definition create (now : datetime) (project : Project) (db : Database)
  : option ProjectStatus * Database :=
  let build := candidate now project db in
  let previous := latest project db in
  match build with
  | Some b =>
      if match previous with
         | None => true
         | Some p =>
             match ps_build p with
             | Some pb => negb (Build_eqb pb b)
             | None => true
             end
         end
      then let '(row, db') := objects_create now (Some b) previous db in
           (Some row, db')
      else (None, db)
  | None => (None, db)
  end.

(** [ProjectStatus.builds] *)
Definition builds (db : Database) (self : ProjectStatus)
  : result (list Build) :=
  match ps_previous self with
  | None =>
      build ← getattr (ps_build self);
      Ok (project_builds db (build_project build))
  | Some prev =>
      let previous := ps_build prev in
      build ← getattr (ps_build self);
      previous ← getattr previous;
      Ok (order_by build_datetime
            (filter (λ b, build_datetime previous < build_datetime b
                          ∧ build_datetime b ≤ build_datetime build)
                    (project_builds db (build_project build))))
  end.

End ProjectStatus.

(** ** Slugs and names *)

(** The character classes of [slug_pattern]: [[a-zA-Z0-9]] and
    [[a-zA-Z0-9_.-]]. *)
Definition slug_first (c : ascii) : bool :=
  let n := nat_of_ascii c in
  (Nat.leb 97 n && Nat.leb n 122) || (Nat.leb 65 n && Nat.leb n 90)
  || (Nat.leb 48 n && Nat.leb n 57).

Definition slug_rest (c : ascii) : bool :=
  slug_first c || Ascii.eqb c "_" || Ascii.eqb c "." || Ascii.eqb c "-".

(** What [[...]*] matches at the start of a text: the longest run of
    characters of the class. *)
Fixpoint match_star (class : ascii → bool) (s : string) : nat :=
  match s with
  | String c rest => if class c then S (match_star class rest) else O
  | EmptyString => O
  end.

(** [re.search('^' + slug_pattern, value)]: with [^] (and no flag) the match
    starts at the beginning of the text; the result is where it ends. *)
Definition slug_search (value : string) : option nat :=
  match value with
  | String c rest =>
      if slug_first c then Some (S (match_star slug_rest rest)) else None
  | EmptyString => None
  end.

(** [slug_validator]: a [RegexValidator] accepts the values on which the
    search finds a match. *)
Definition slug_validator (value : string) : bool :=
  match slug_search value with
  | Some _ => true
  | None => false
  end.

Module Group.

(** [Group.__str__] *)
Definition __str__ (self : Group) : string := group_slug self.

End Group.

Module Project.

(** [Project.full_name] *)
Definition full_name (self : Project) : string :=
  String.append (String.append (Group.__str__ (project_group self)) "/")
    (project_slug self).

(** [Project.__str__] *)
Definition __str__ (self : Project) : string := full_name self.

End Project.

(** ** [Metric] *)

Record Metric := mkMetric
  { metric_name : string;
    measurements : string }.

(** [s.split(',')]: the piece before the first comma, and the pieces after
    it. *)
Fixpoint split_comma (s : string) : string * list string :=
  match s with
  | EmptyString => (EmptyString, [])
  | String c rest =>
      let '(piece, pieces) := split_comma rest in
      if Ascii.eqb c ","%char then (EmptyString, piece :: pieces)
      else (String c piece, pieces)
  end.

Definition str_split (s : string) : list string :=
  let '(piece, pieces) := split_comma s in piece :: pieces.

Module Metric.

(** [Metric.measurement_list]; [float_] is the conversion [float(n)] of a
    text, which raises on a text that is not a number. *)
Definition measurement_list (float_ : string → result float) (self : Metric)
  : result (list float) :=
  if truthy (Some (measurements self))
  then mapM float_ (str_split (measurements self))
  else Ok [].

End Metric.

(** * What the specification talks about *)

(** ** What "every [-rc] rewritten to [~rc]" means

    Written from the words of the specification, to compare [re_sub_rc]
    with: position by position the text is unchanged, except that the dash
    opening an occurrence of [-rc] has become a tilde. *)

Definition rc_at (s : string) (i : nat) : bool :=
  String.eqb (String.substring i 3 s) "-rc".

Definition rc_rewritten (s out : string) : Prop :=
  ∀ i : nat,
    String.get i out = if rc_at s i then Some "~"%char else String.get i s.

(** ** What the test summary counts

    The tests of a build, read off the two tables: the rows of the runs
    table that are on the build, in table order, and for each of them the
    rows of the tests table that are on the run, in table order.  Then, the
    same tests without the order: the rows of the tests table whose run has
    the primary key of a run of the build.  Last, the number of tests with a
    given result, and the failed tests of one environment. *)

Definition all_tests (db : Database) (build : Build) : list Test :=
  concat
    ((λ run, filter (λ t, test_run_id (test_test_run t) = test_run_id run)
                    (tests_table db))
     <$> filter (λ run, build_id (test_run_build run) = build_id build)
                (test_runs_table db)).

Definition build_run_ids (db : Database) (build : Build) : list Z :=
  test_run_id
  <$> filter (λ run, build_id (test_run_build run) = build_id build)
             (test_runs_table db).

Definition test_of_build (db : Database) (build : Build) (t : Test) : Prop :=
  test_run_id (test_test_run t) ∈ build_run_ids db build.

#[global] Instance test_of_build_dec db build t :
  Decision (test_of_build db build t).
Proof. unfold test_of_build. apply _. Defined.

Definition tests_of_build (db : Database) (build : Build) : list Test :=
  filter (test_of_build db build) (tests_table db).

Definition count_result (r : option bool) (l : list Test) : Z :=
  Z.of_nat (length (filter (λ t, test_result t = r) l)).

Definition test_env (t : Test) : string :=
  environment_slug (test_run_environment (test_test_run t)).

Definition failed_in (env : string) (l : list Test) : list Test :=
  filter (λ t, test_result t = Some false ∧ test_env t = env) l.

(** The keys of an ordered dictionary filled in the order of [l]. *)
Definition first_seen (l : list string) : list string :=
  foldl (λ seen e, if decide (e ∈ seen) then seen else seen ++ [e]) [] l.

(** [failures.get(env)] *)
Fixpoint failures_get (env : string) (failures : list (string * list Test))
  : option (list Test) :=
  match failures with
  | [] => None
  | (k, l) :: failures' =>
      if String.eqb k env then Some l else failures_get env failures'
  end.

(** The update of [failures] by one test. *)
Definition record_failure (failures : list (string * list Test)) (t : Test)
  : list (string * list Test) :=
  match test_result t with
  | Some false => Build.failures_append (test_env t) t failures
  | _ => failures
  end.

(** ** What the history of a test reports

    The streak is the longest initial run of tests with the given result;
    what follows it starts with the first test whose result differs. *)

Fixpoint streak (r : option bool) (l : list Test) : list Test :=
  match l with
  | [] => []
  | t :: l' => if decide (test_result t = r) then t :: streak r l' else []
  end.

Fixpoint after_streak (r : option bool) (l : list Test) : list Test :=
  match l with
  | [] => []
  | t :: l' => if decide (test_result t = r) then after_streak r l' else l
  end.

Definition test_datetime (t : Test) : datetime :=
  build_datetime (test_run_build (test_test_run t)).

(** The tests a history is about: same suite, name and environment, from a
    build strictly earlier, other than the test itself. *)
Definition prior_to (self t : Test) : Prop :=
  suite_id (test_suite t) = suite_id (test_suite self)
  ∧ test_name t = test_name self
  ∧ environment_id (test_run_environment (test_test_run t))
    = environment_id (test_run_environment (test_test_run self))
  ∧ test_datetime t < test_datetime self
  ∧ test_id t ≠ test_id self.

(** ** What a checkpoint covers *)

Definition of_project_b (project : Project) (b : Build) : Prop :=
  project_id (build_project b) = project_id project.

Definition in_window (previous build b : Build) : Prop :=
  build_datetime previous < build_datetime b
  ∧ build_datetime b ≤ build_datetime build.

#[global] Instance of_project_b_dec project b :
  Decision (of_project_b project b).
Proof. unfold of_project_b. apply _. Defined.

#[global] Instance in_window_dec previous build b :
  Decision (in_window previous build b).
Proof. unfold in_window. apply _. Defined.

(** ** What [create] decides on *)

(** A build of the project that is old enough at [now] to count as complete. *)
Definition completed (now : datetime) (project : Project) (b : Build) : Prop :=
  of_project_b project b
  ∧ build_datetime b
    < now - relativedelta_minutes (build_completion_threshold project).

#[global] Instance completed_dec now project b :
  Decision (completed now project b).
Proof. unfold completed. apply _. Defined.

(** The candidate is the most recent completed build, if there is one. *)
Definition is_candidate (now : datetime) (project : Project) (db : Database)
    (o : option Build) : Prop :=
  match o with
  | Some b =>
      b ∈ builds_table db ∧ completed now project b
      ∧ ∀ b', b' ∈ builds_table db → completed now project b' →
              build_datetime b' ≤ build_datetime b
  | None => ∀ b', b' ∈ builds_table db → ¬ completed now project b'
  end.

(** The latest checkpoint of the project, if it has one. *)
Definition on_project (project : Project) (ps : ProjectStatus) : Prop :=
  project_id ∘ build_project <$> ps_build ps = Some (project_id project).

#[global] Instance on_project_dec project ps :
  Decision (on_project project ps).
Proof. unfold on_project. apply _. Defined.

Definition is_latest (project : Project) (db : Database)
    (o : option ProjectStatus) : Prop :=
  match o with
  | Some p =>
      p ∈ project_statuses db ∧ on_project project p
      ∧ ∀ p', p' ∈ project_statuses db → on_project project p' →
              ps_id p' ≤ ps_id p
  | None => ∀ p', p' ∈ project_statuses db → ¬ on_project project p'
  end.

(** The checkpoint [previous], if any, is not on build [b]. *)
Definition differs_from (previous : option ProjectStatus) (b : Build) : Prop :=
  match previous with
  | None => True
  | Some p => build_id <$> ps_build p ≠ Some (build_id b)
  end.

#[global] Instance differs_from_dec previous b :
  Decision (differs_from previous b).
Proof. destruct previous; simpl; apply _. Defined.

(** ** Rounding of doubles

    What the right shift of the IEEE-754 specification computes: [rounded M
    lx k] is the mantissa [M], known up to the location [lx], with its last
    [k] bits rounded away to nearest, ties to even; [finish] renormalises the
    rounded mantissa [m2] at exponent [e1]. *)

Definition rounded (M : Z) (lx : location) (k : Z) : Z :=
  let mrs := (shr (shr_record_of_loc M lx) 0 k).1 in
  round_nearest_even (shr_m mrs) (loc_of_shr_record mrs).

Definition finish (sx : bool) (m2 e1 : Z) : spec_float :=
  if m2 =? 0 then S754_zero sx
  else if m2 <? 2 ^ 53
       then (if e1 <=? 971 then S754_finite sx (Z.to_pos m2) e1
             else S754_infinity sx)
       else (if e1 + 1 <=? 971 then S754_finite sx (Z.to_pos (2 ^ 52)) (e1 + 1)
             else S754_infinity sx).

(** The double 100: mantissa [25 * 2 ^ 48], exponent [-46]. *)
Definition hundred_p : positive := 7036874417766400.
Definition hundred_m : Z := Zpos hundred_p.
Definition SF_100 : spec_float := S754_finite false hundred_p (-46).

(** A positive double that is at most 1; a double from 0 to 100. *)
Definition le_one (x : spec_float) : Prop :=
  match x with
  | S754_finite false m e => e ≤ 0 ∧ Zpos m ≤ 2 ^ (- e)
  | _ => False
  end.

Definition le_100 (x : spec_float) : Prop :=
  match x with
  | S754_zero false => True
  | S754_finite false m e => e ≤ -46 ∧ Zpos m ≤ hundred_m * 2 ^ (-46 - e)
  | _ => False
  end.

(** ** What the names and the measurements are made of *)

(** A text without the separator of [full_name]. *)
Definition no_slash (s : string) : Prop :=
  ∀ i : nat, String.get i s ≠ Some "/"%char.

(** The number of commas of a text. *)
Fixpoint commas (s : string) : nat :=
  match s with
  | EmptyString => O
  | String c rest => if Ascii.eqb c ","%char then S (commas rest) else commas rest
  end.

(** ** The pass percentage as the specification writes it

    [100 * tests_pass / total_tests]: the product of the two integers, then
    the division of integers, which gives the double nearest to the
    quotient.  For integers below [2 ^ 53] both convert exactly, so that
    double is the quotient of the two doubles. *)

Definition int_truediv (a b : Z) : result float :=
  if b =? 0 then Raise ZeroDivisionError
  else a' ← py_float a; b' ← py_float b; float_truediv a' b'.

Definition product_first_percentage (self : Status) : result number :=
  if tests_pass self =? 0 then Ok (PyInt 0)
  else q ← int_truediv (100 * tests_pass self) (Status.total_tests self);
       Ok (PyFloat q).

(** ** The range of a percentage *)

(** [0 <= x <= 100] *)
Definition in_percent_range (x : number) : bool :=
  match x with
  | PyInt z => (0 <=? z) && (z <=? 100)
  | PyFloat f => PrimFloat.leb zero f && PrimFloat.leb f float_100
  end.

(** * Rows to run the model on *)

(** ** A small database

    One project with six builds an hour apart, one run per build in a single
    environment and one test [boot] per run, failing in the second build
    only; used to run the properties below on concrete rows. *)

Definition hour : Z := 3600000000.

Definition mygroup : Group := mkGroup 1 "mygroup".
Definition myproject : Project := mkProject 1 mygroup "myproject" 120.
Definition env_x86 : Environment := mkEnvironment 1 "x86".
Definition suite_tests : Suite := mkSuite 1 "tests".

Definition build_at (n : Z) : Build :=
  mkBuild n myproject "1.0" "1.0" (n * hour).
Definition run_of (n : Z) : TestRun :=
  mkTestRun n (build_at n) env_x86 None.
Definition boot (n : Z) (r : option bool) : Test :=
  mkTest n (run_of n) suite_tests "boot" r.

Definition db_six : Database :=
  mkDatabase
    (build_at <$> [1; 2; 3; 4; 5; 6])
    (run_of <$> [1; 2; 3; 4; 5; 6])
    [boot 1 (Some true); boot 2 (Some false); boot 3 (Some true);
     boot 4 (Some true); boot 5 (Some true); boot 6 (Some true)]
    [].

(** Two checkpoints over the first three builds, the rows of the builds
    table not in time order. *)
Definition checkpoint_1 : ProjectStatus :=
  mkProjectStatus 1 (Some (build_at 1)) None (4 * hour).
Definition checkpoint_2 : ProjectStatus :=
  mkProjectStatus 2 (Some (build_at 3)) (Some checkpoint_1) (6 * hour).

Definition db_three : Database :=
  mkDatabase [build_at 3; build_at 1; build_at 2] [] []
             [checkpoint_1; checkpoint_2].

(** The scenario of a project with the default threshold of 120 minutes:
    build A is 200 minutes old and build B 10 minutes old at [t_now]. *)
Definition minute : Z := 60000000.
Definition t_now : datetime := 1000 * minute.
Definition build_A : Build := mkBuild 1 myproject "A" "A" (t_now - 200 * minute).
Definition build_B : Build := mkBuild 2 myproject "B" "B" (t_now - 10 * minute).
Definition db_AB : Database := mkDatabase [build_A; build_B] [] [] [].

(** ** A build with two runs

    The first build has a run on [x86] and a run on [arm]; the tests table
    holds, not in order of runs, a passed and a failed test of the first
    run, a failed and a skipped test of the second, and a failed test of a
    run of another build. *)

Definition env_arm : Environment := mkEnvironment 2 "arm".
Definition run_arm : TestRun := mkTestRun 8 (build_at 1) env_arm None.
Definition net_x86 : Test :=
  mkTest 11 (run_of 1) suite_tests "net" (Some false).
Definition boot_arm : Test := mkTest 12 run_arm suite_tests "boot" (Some false).
Definition net_arm : Test := mkTest 13 run_arm suite_tests "net" None.

Definition db_two_runs : Database :=
  mkDatabase
    [build_at 1; build_at 2]
    [run_of 1; run_of 2; run_arm]
    [boot 1 (Some true); boot 2 (Some false); boot_arm; net_x86; net_arm]
    [].

(** ** Metadata of test runs, as decoded *)

Definition foo_bar : gmap string string := {[ "foo" := "bar" ]}%string.
Definition foo_bar_baz_qux : gmap string string :=
  <[ "baz" := "qux" ]> foo_bar.
Definition foo_bar_baz_fox : gmap string string :=
  <[ "baz" := "fox" ]> foo_bar.
Definition baz_qux : gmap string string := {[ "baz" := "qux" ]}%string.

(** A decoder of four texts: two objects, [null], which decodes to [None],
    and anything else malformed.  [None] is falsy, and [dict_intersection]
    of a non-empty [dict] and [None] raises [TypeError] at [k in d2]. *)
Definition decode_four : string → result (json_value string unit) :=
  λ s, if String.eqb s "first" then Ok (JObject foo_bar_baz_qux)
       else if String.eqb s "second" then Ok (JObject foo_bar_baz_fox)
       else if String.eqb s "null" then Ok (JOther ())
       else Raise ValueError.
Definition none_truthy : unit → bool := λ _, false.
Definition none_intersection
  : json_value string unit → json_value string unit
    → result (json_value string unit) :=
  λ _ _, Raise TypeError.

Definition run_with (n : Z) (text : string) : TestRun :=
  mkTestRun n (build_at 1) env_x86 (Some text).
Definition db_runs (runs : list TestRun) : Database :=
  mkDatabase [build_at 1] runs [] [].

(** A decoder that finds every text malformed, and a run whose stored
    metadata is the one character of an unfinished object. *)
Definition always_malformed : string → result (gmap string string) :=
  λ _, Raise ValueError.

(** * Properties *)

(** ** Querysets: [order_by] sorts, keeps the rows, and is stable *)

Lemma StronglySorted_mono {A} (R1 R2 : relation A) (l : list A) :
  (∀ a b, R1 a b → R2 a b) → StronglySorted R1 l → StronglySorted R2 l.
Proof.
  intros HR. induction 1 as [|a l Hl IH Ha]; constructor; [done|].
  eapply Forall_impl; eauto.
Qed.

Section QuerySetFacts.
Context {A : Type} (key : A → Z).

Lemma insert_by_Permutation a l : insert_by key a l ≡ₚ a :: l.
Proof.
  induction l as [|b l IH]; simpl; [done|].
  destruct (key a <=? key b); [done|].
  rewrite IH. apply perm_swap.
Qed.

Lemma order_by_Permutation l : order_by key l ≡ₚ l.
Proof.
  induction l as [|a l IH]; simpl; [done|].
  by rewrite insert_by_Permutation, IH.
Qed.

Lemma elem_of_order_by a l : a ∈ order_by key l ↔ a ∈ l.
Proof. by rewrite order_by_Permutation. Qed.

Lemma insert_by_sorted a l :
  StronglySorted (key_le key) l → StronglySorted (key_le key) (insert_by key a l).
Proof.
  induction 1 as [|b l Hl IH Hb]; simpl.
  - repeat constructor.
  - destruct (Z.leb_spec (key a) (key b)) as [Hab|Hab].
    + constructor; [by constructor|].
      constructor; [done|].
      eapply Forall_impl; [exact Hb|]. unfold key_le. intros; lia.
    + constructor; [done|].
      rewrite insert_by_Permutation. constructor; [|done].
      unfold key_le. lia.
Qed.

Lemma order_by_sorted l : StronglySorted (key_le key) (order_by key l).
Proof.
  induction l as [|a l IH]; simpl; [constructor|].
  by apply insert_by_sorted.
Qed.

(** Rows already in order stay as they are. *)
Lemma order_by_of_sorted l : StronglySorted (key_le key) l → order_by key l = l.
Proof.
  induction 1 as [|a l Hl IH Ha]; simpl; [done|].
  rewrite IH. destruct Ha as [|b l Hab _]; simpl; [done|].
  unfold key_le in Hab. by apply Z.leb_le in Hab as ->.
Qed.

Lemma filter_sorted (P : A → Prop) `{∀ a, Decision (P a)} l :
  StronglySorted (key_le key) l → StronglySorted (key_le key) (filter P l).
Proof.
  induction 1 as [|a l Hl IH Ha]; [constructor|].
  rewrite filter_cons. case_decide; [|done].
  constructor; [done|].
  apply Forall_forall. intros b [_ Hb]%list_elem_of_filter.
  by eapply Forall_forall in Ha.
Qed.

Lemma order_by_filter (P : A → Prop) `{∀ a, Decision (P a)} l :
  order_by key (filter P (order_by key l)) = filter P (order_by key l).
Proof. apply order_by_of_sorted, filter_sorted, order_by_sorted. Qed.

(** The last row of an ordered queryset has the largest key. *)
Lemma last_sorted_max l x :
  StronglySorted (key_le key) l → last l = Some x → ∀ y, y ∈ l → key y ≤ key x.
Proof.
  intros Hl Hlast y Hy.
  apply last_Some in Hlast as [l' ->].
  apply StronglySorted_app in Hl as (Hl & _ & _).
  apply elem_of_app in Hy as [Hy|Hy].
  - apply (Hl y x Hy). by apply list_elem_of_singleton.
  - apply list_elem_of_singleton in Hy as ->. unfold key_le. lia.
Qed.

Lemma insert_by_snoc a l x :
  key a ≤ key x → insert_by key a (l ++ [x]) = insert_by key a l ++ [x].
Proof.
  intros Hax. induction l as [|b l IH]; simpl.
  - by apply Z.leb_le in Hax as ->.
  - destruct (key a <=? key b); [done|]. by rewrite IH.
Qed.

(** A row whose key is the largest, appended to the table, comes last. *)
Lemma order_by_snoc l x :
  (∀ y, y ∈ l → key y ≤ key x) →
  order_by key (l ++ [x]) = order_by key l ++ [x].
Proof.
  induction l as [|a l IH]; intros Hmax; simpl; [done|].
  rewrite IH, insert_by_snoc; [done| |].
  - apply Hmax. by left.
  - intros y Hy. apply Hmax. by right.
Qed.
End QuerySetFacts.

(** ** [Build.save] and [re.sub] *)

Lemma rc_at_S c s i : rc_at (String c s) (S i) = rc_at s i.
Proof. reflexivity. Qed.

Lemma rc_at_0 c1 c2 c3 rest :
  rc_at (String c1 (String c2 (String c3 rest))) 0
  = Ascii.eqb c1 "-" && Ascii.eqb c2 "r" && Ascii.eqb c3 "c".
Proof.
  unfold rc_at. simpl String.substring.
  replace (String.substring 0 0 rest) with EmptyString by (by destruct rest).
  simpl.
  by destruct (Ascii.eqb c1 "-"), (Ascii.eqb c2 "r"), (Ascii.eqb c3 "c").
Qed.

Local Ltac rc_short :=
  unfold rc_at; simpl;
  repeat match goal with
         | |- context [Ascii.eqb ?a ?b] => destruct (Ascii.eqb a b); simpl
         | |- context [String.substring 0 0 ?r] => destruct r; simpl
         end;
  try reflexivity.

Lemma re_sub_rc_rewritten_upto (n : nat) :
  ∀ s, (String.length s ≤ n)%nat → rc_rewritten s (re_sub_rc s).
Proof.
  induction n as [|n IH]; intros s Hlen.
  - destruct s; simpl in Hlen; [|lia]. intros i. by destruct i.
  - destruct s as [|c1 [|c2 [|c3 rest]]].
    + intros i. by destruct i.
    + intros [|[|i]]; rc_short.
    + intros [|[|[|i]]]; rc_short.
    + simpl in Hlen. intros i.
      destruct i as [|i].
      * rewrite rc_at_0. simpl.
        by destruct (Ascii.eqb c1 "-" && Ascii.eqb c2 "r" && Ascii.eqb c3 "c").
      * rewrite rc_at_S. simpl re_sub_rc.
        destruct (Ascii.eqb c1 "-" && Ascii.eqb c2 "r" && Ascii.eqb c3 "c")
          eqn:Hrc.
        -- apply andb_prop in Hrc as [Hrc H3]. apply andb_prop in Hrc as [H1 H2].
           apply Ascii.eqb_eq in H1, H2, H3. subst.
           destruct i as [|[|i]].
           ++ destruct rest as [|c4 rest]; rc_short.
           ++ destruct rest as [|c4 [|c5 rest]]; rc_short.
           ++ simpl String.get. rewrite !rc_at_S. apply IH. lia.
        -- simpl String.get. apply (IH (String c2 (String c3 rest))). simpl. lia.
Qed.

Lemma re_sub_rc_rewritten s : rc_rewritten s (re_sub_rc s).
Proof. by apply (re_sub_rc_rewritten_upto (String.length s)). Qed.

(** C9. On saving a Build whose name is supplied: the name is kept; when no
    version is supplied the version becomes the name with every [-rc]
    rewritten to [~rc] (so ["1.0-rc1"] gives ["1.0~rc1"]); when a version is
    supplied too, it is kept as given. *)
Theorem C9_save_version_from_name (now : datetime) (self : BuildInstance) :
  truthy (inst_name self) = true →
  inst_name (Build.save now self) = inst_name self
  ∧ (truthy (inst_version self) = false →
       ∃ n v, inst_name self = Some n
              ∧ inst_version (Build.save now self) = Some v
              ∧ v = re_sub_rc n ∧ rc_rewritten n v)
  ∧ (truthy (inst_version self) = true →
       inst_version (Build.save now self) = inst_version self)
  ∧ inst_version
      (Build.save now
         (mkBuildInstance (inst_project self) (Some "1.0-rc1"%string) None
                          (inst_datetime self)))
    = Some "1.0~rc1"%string.
Proof.
  intros Hname. destruct self as [proj name version dt]. simpl in *.
  assert (Hsave : inst_name (Build.save now (mkBuildInstance proj name version dt))
                  = name
                  ∧ inst_version (Build.save now (mkBuildInstance proj name version dt))
                    = if truthy version then version else re_sub_rc <$> name).
  { unfold Build.save.
    destruct (truthy version) eqn:Hversion, dt; simpl;
      rewrite ?Hname, ?Hversion; simpl; rewrite ?Hname, ?Hversion; done. }
  destruct Hsave as [Hn Hv]. rewrite Hn, Hv.
  split; [done|]. split; [|split].
  - intros Hversion. rewrite Hversion.
    destruct name as [n|]; [|done].
    exists n, (re_sub_rc n). eauto using re_sub_rc_rewritten.
  - by intros ->.
  - by destruct dt.
Qed.

Lemma C9_save_version_from_name_witness :
  inst_version
    (Build.save 0
       (mkBuildInstance (mkProject 1 (mkGroup 1 "mygroup") "myproject" 120)
                        (Some "2.1-rc3"%string) (Some ""%string) None))
  = Some "2.1~rc3"%string.
Proof.
  pose proof (C9_save_version_from_name 0
    (mkBuildInstance (mkProject 1 (mkGroup 1 "mygroup") "myproject" 120)
                     (Some "2.1-rc3"%string) (Some ""%string) None)
    eq_refl) as (_ & H & _).
  destruct (H eq_refl) as (n & v & Hn & Hv & -> & _).
  injection Hn as <-. exact Hv.
Defined.

(** ** [Build.test_summary] *)

Lemma count_result_snoc r l t :
  count_result r (l ++ [t])
  = count_result r l + (if decide (test_result t = r) then 1 else 0).
Proof.
  unfold count_result. rewrite filter_app, length_app, filter_cons, filter_nil.
  case_decide; simpl; lia.
Qed.

Lemma foldl_count_test (s0 : Build.Summary) (l : list Test) :
  let s := foldl Build.count_test s0 l in
  Build.summary_total s = Build.summary_total s0 + Z.of_nat (length l)
  ∧ Build.summary_pass s = Build.summary_pass s0 + count_result (Some true) l
  ∧ Build.summary_fail s = Build.summary_fail s0 + count_result (Some false) l
  ∧ Build.summary_missing s = Build.summary_missing s0 + count_result None l
  ∧ Build.summary_failures s = foldl record_failure (Build.summary_failures s0) l.
Proof.
  induction l as [|t l IH] using rev_ind; simpl.
  - unfold count_result. simpl. repeat split; lia.
  - rewrite !foldl_app. simpl.
    destruct (foldl Build.count_test s0 l) as [tot pas fai mis fs].
    simpl in IH. destruct IH as (-> & -> & -> & -> & ->).
    rewrite !count_result_snoc, length_app. simpl.
    unfold Build.count_test, record_failure, test_env.
    destruct (test_result t) as [[]|]; simpl;
      repeat split; repeat case_decide; try congruence; try lia.
Qed.

Lemma test_summary_all_tests db build :
  Build.test_summary db build
  = foldl Build.count_test (Build.mkSummary 0 0 0 0 []) (all_tests db build).
Proof.
  unfold Build.test_summary, all_tests, Build.test_runs, Build.tests.
  generalize (Build.mkSummary 0 0 0 0 []).
  induction (filter _ (test_runs_table db)) as [|run runs IH]; intros s0; simpl.
  - done.
  - rewrite foldl_app. apply IH.
Qed.

Lemma count_result_partition (l : list Test) :
  Z.of_nat (length l)
  = count_result (Some true) l + count_result (Some false) l
    + count_result None l.
Proof.
  unfold count_result. induction l as [|t l IH]; simpl; [done|].
  rewrite !filter_cons.
  destruct (test_result t) as [[]|]; repeat case_decide; simpl;
    try congruence; lia.
Qed.

Lemma failures_get_append env e t failures :
  failures_get env (Build.failures_append e t failures)
  = if String.eqb e env
    then Some (default [] (failures_get e failures) ++ [t])
    else failures_get env failures.
Proof.
  induction failures as [|[k l] failures IH]; simpl.
  - by destruct (String.eqb e env).
  - destruct (String.eqb_spec k e) as [->|Hke]; simpl.
    + by destruct (String.eqb e env).
    + rewrite IH.
      destruct (String.eqb_spec k env) as [->|Hkenv]; [|done].
      destruct (String.eqb_spec e env); congruence.
Qed.

Lemma failures_keys_append e t (failures : list (string * list Test)) :
  (Build.failures_append e t failures).*1
  = if decide (e ∈ failures.*1) then failures.*1 else failures.*1 ++ [e].
Proof.
  induction failures as [|[k l] failures IH]; [done|].
  cbn [Build.failures_append].
  destruct (String.eqb_spec k e) as [->|Hke]; rewrite !fmap_cons; cbn [fst].
  - rewrite decide_True; [done|]. apply elem_of_cons. by left.
  - rewrite IH. destruct (decide (e ∈ failures.*1)) as [Hin|Hin].
    + rewrite decide_True; [done|]. apply elem_of_cons. by right.
    + rewrite decide_False; [done|].
      rewrite elem_of_cons. intros [->|?]; done.
Qed.

Lemma failed_in_snoc env l t :
  failed_in env (l ++ [t])
  = failed_in env l
    ++ (if decide (test_result t = Some false ∧ test_env t = env)
        then [t] else []).
Proof.
  unfold failed_in. rewrite filter_app, filter_cons, filter_nil.
  by case_decide.
Qed.

Lemma record_failure_get env failures0 (l : list Test) :
  failures_get env (foldl record_failure failures0 l)
  = match failures_get env failures0, failed_in env l with
    | None, [] => None
    | o, fl => Some (default [] o ++ fl)
    end.
Proof.
  induction l as [|t l IH] using rev_ind; simpl.
  - destruct (failures_get env failures0); simpl; [|done].
    by rewrite app_nil_r.
  - rewrite foldl_app, failed_in_snoc. simpl.
    unfold record_failure at 1.
    destruct (test_result t) as [[]|] eqn:Hres.
    + rewrite decide_False by (intros [? ?]; congruence). by rewrite app_nil_r.
    + rewrite failures_get_append.
      destruct (String.eqb_spec (test_env t) env) as [Henv|Henv].
      * rewrite decide_True by done. subst env. rewrite IH.
        destruct (failures_get (test_env t) failures0) as [l0|];
          destruct (failed_in (test_env t) l) as [|t' fl]; simpl;
          by rewrite <- ?app_assoc.
      * rewrite decide_False by (intros [? ?]; congruence). by rewrite app_nil_r.
    + rewrite decide_False by (intros [? ?]; congruence). by rewrite app_nil_r.
Qed.

Lemma record_failure_keys failures0 (l : list Test) :
  (foldl record_failure failures0 l).*1
  = foldl (λ seen e, if decide (e ∈ seen) then seen else seen ++ [e])
      failures0.*1
      (test_env <$> filter (λ t, test_result t = Some false) l).
Proof.
  induction l as [|t l IH] using rev_ind; simpl; [done|].
  rewrite foldl_app, filter_app, fmap_app, foldl_app. simpl.
  rewrite filter_cons, filter_nil. unfold record_failure at 1.
  destruct (test_result t) as [[]|] eqn:Hres.
  - by rewrite decide_False.
  - rewrite decide_True by done. simpl.
    by rewrite failures_keys_append, IH.
  - by rewrite decide_False.
Qed.

Lemma elem_of_concat {A} (x : A) (ls : list (list A)) :
  x ∈ concat ls ↔ ∃ l, x ∈ l ∧ l ∈ ls.
Proof.
  induction ls as [|l0 ls IH]; simpl.
  - split; [by intros ?%elem_of_nil|]. by intros (l & _ & ?%elem_of_nil).
  - rewrite elem_of_app, IH. split.
    + intros [Hx|(l & Hx & Hl)].
      * exists l0. split; [done|]. by left.
      * exists l. split; [done|]. by right.
    + intros (l & Hx & [->|Hl]%elem_of_cons); [by left|]. right. eauto.
Qed.

(** The tests the summary runs over are the rows of the tests table on a
    run of the build. *)
Lemma elem_of_all_tests db build t :
  t ∈ all_tests db build ↔ t ∈ tests_table db ∧ test_of_build db build t.
Proof.
  unfold all_tests, test_of_build, build_run_ids.
  rewrite elem_of_concat. split.
  - intros (l & Ht & (run & -> & Hrun)%list_elem_of_fmap).
    apply list_elem_of_filter in Ht as [Hid Ht]. split; [done|].
    rewrite Hid. by apply list_elem_of_fmap_2.
  - intros [Ht (run & Hid & Hrun)%list_elem_of_fmap].
    eexists. split; [|apply list_elem_of_fmap_2; exact Hrun].
    by apply list_elem_of_filter.
Qed.

Lemma filter_none {A} (P : A → Prop) `{∀ x, Decision (P x)} (l : list A) :
  Forall (λ x, ¬ P x) l → filter P l = [].
Proof.
  induction 1 as [|x l Hx _ IH]; [done|].
  by rewrite filter_cons_False.
Qed.

Lemma filter_or_disjoint {A} (P Q : A → Prop)
    `{∀ x, Decision (P x)} `{∀ x, Decision (Q x)} (l : list A) :
  (∀ x, P x → Q x → False) →
  filter (λ x, P x ∨ Q x) l ≡ₚ filter P l ++ filter Q l.
Proof.
  intros Hdisjoint. induction l as [|x l IH]; [done|].
  rewrite !filter_cons.
  destruct (decide (P x)) as [HP|HP], (decide (Q x)) as [HQ|HQ].
  - by destruct (Hdisjoint x).
  - rewrite decide_True by by left. simpl. by rewrite IH.
  - rewrite decide_True by by right.
    rewrite IH. apply Permutation_middle.
  - rewrite decide_False by tauto. done.
Qed.

(** With distinct keys, the rows taken key by key are the rows whose key is
    one of the keys, each once. *)
Lemma concat_filter_keys {A} (key : A → Z) (keys : list Z) (l : list A) :
  NoDup keys →
  concat ((λ i, filter (λ x, key x = i) l) <$> keys)
  ≡ₚ filter (λ x, key x ∈ keys) l.
Proof.
  induction 1 as [|i keys Hi _ IH]; simpl.
  - symmetry. rewrite filter_none; [done|].
    apply Forall_forall. intros x _. apply not_elem_of_nil.
  - rewrite IH, <- filter_or_disjoint.
    + erewrite list_filter_iff; [done|]. intros x. simpl.
      rewrite elem_of_cons. done.
    + intros x <- Hx. done.
Qed.

Lemma all_tests_of_build db build :
  NoDup (test_run_id <$> test_runs_table db) →
  all_tests db build ≡ₚ tests_of_build db build.
Proof.
  intros Hkeys. unfold all_tests, tests_of_build, test_of_build, build_run_ids.
  rewrite <- (concat_filter_keys (λ t, test_run_id (test_test_run t))).
  - by rewrite <- list_fmap_compose.
  - eapply sublist_NoDup; [exact Hkeys|].
    apply fmap_sublist, sublist_filter.
Qed.

Lemma count_result_Permutation r (l1 l2 : list Test) :
  l1 ≡ₚ l2 → count_result r l1 = count_result r l2.
Proof. intros Hperm. unfold count_result. by rewrite Hperm. Qed.

(** C5. [test_summary] counts every test of every run of the build once,
    under its own result: total = pass + fail + missing, the three counters
    are the numbers of tests whose result is true, false and null (so a null
    result is never a fail), and [failures] maps an environment slug to
    exactly the tests of that environment whose result is false, in
    iteration order, with an entry only where there is such a test and the
    entries in the order their first failure was met.  The tests counted are
    the rows of the tests table whose run has the primary key of a row of
    the runs table that is on the build; the primary keys of the runs being
    distinct, each such row is counted once. *)
Theorem C5_test_summary (db : Database) (build : Build) :
  let summary := Build.test_summary db build in
  let tests := all_tests db build in
  Build.summary_total summary
  = Build.summary_pass summary + Build.summary_fail summary
    + Build.summary_missing summary
  ∧ Build.summary_total summary = Z.of_nat (length tests)
  ∧ Build.summary_pass summary = count_result (Some true) tests
  ∧ Build.summary_fail summary = count_result (Some false) tests
  ∧ Build.summary_missing summary = count_result None tests
  ∧ (∀ env, failures_get env (Build.summary_failures summary)
            = match failed_in env tests with
              | [] => None
              | fl => Some fl
              end)
  ∧ (Build.summary_failures summary).*1
    = first_seen (test_env <$> filter (λ t, test_result t = Some false) tests)
  ∧ (∀ t, t ∈ tests ↔ t ∈ tests_table db ∧ test_of_build db build t)
  ∧ (NoDup (test_run_id <$> test_runs_table db) →
       tests ≡ₚ tests_of_build db build
       ∧ Build.summary_total summary
         = Z.of_nat (length (tests_of_build db build))
       ∧ ∀ r, count_result r tests
              = count_result r (tests_of_build db build)).
Proof.
  intros summary tests. subst summary.
  rewrite test_summary_all_tests. fold tests.
  destruct (foldl_count_test (Build.mkSummary 0 0 0 0 []) tests)
    as (Ht & Hp & Hf & Hm & Hfs).
  simpl in Ht, Hp, Hf, Hm, Hfs.
  rewrite Ht, Hp, Hf, Hm, Hfs.
  split_and!; try lia.
  - apply count_result_partition.
  - intros env. by rewrite record_failure_get.
  - apply record_failure_keys.
  - intros t. apply elem_of_all_tests.
  - intros Hkeys.
    pose proof (all_tests_of_build db build Hkeys) as Hperm.
    fold tests in Hperm. split_and!.
    + done.
    + by rewrite Hperm.
    + intros r. by apply count_result_Permutation.
Qed.

Lemma C5_test_summary_witness :
  let summary := Build.test_summary db_two_runs (build_at 1) in
  Build.summary_total summary = 4
  ∧ Build.summary_pass summary = 1
  ∧ Build.summary_fail summary = 2
  ∧ Build.summary_missing summary = 1
  ∧ failures_get "x86" (Build.summary_failures summary) = Some [net_x86]
  ∧ failures_get "arm" (Build.summary_failures summary) = Some [boot_arm]
  ∧ (Build.summary_failures summary).*1 = ["x86"; "arm"]%string
  ∧ all_tests db_two_runs (build_at 1)
    ≡ₚ [boot 1 (Some true); boot_arm; net_x86; net_arm].
Proof.
  pose proof (C5_test_summary db_two_runs (build_at 1))
    as (_ & Htotal & Hpass & Hfail & Hmissing & Hget & Hkeys & _ & Htable).
  split; [exact Htotal|]. split; [exact Hpass|]. split; [exact Hfail|].
  split; [exact Hmissing|]. split; [exact (Hget "x86"%string)|].
  split; [exact (Hget "arm"%string)|]. split; [exact Hkeys|].
  refine (proj1 (Htable _)). compute_done.
Defined.

(** ** [Test.history] *)

Lemma walk_streak r (l : list Test) since0 count0 :
  Test.walk r l since0 count0
  = mkHistory (match last (streak r l) with
               | Some t => Some t
               | None => since0
               end)
              (count0 + Z.of_nat (length (streak r l)))
              (head (after_streak r l)).
Proof.
  revert since0 count0.
  induction l as [|t l IH]; intros since0 count0; simpl.
  - f_equal. lia.
  - case_decide; simpl; [|f_equal; lia].
    rewrite IH. f_equal; [|lia].
    rewrite last_cons. by destruct (last (streak r l)).
Qed.

Lemma streak_split r (l : list Test) :
  l = streak r l ++ after_streak r l
  ∧ Forall (λ t, test_result t = r) (streak r l)
  ∧ (∀ t, head (after_streak r l) = Some t → test_result t ≠ r).
Proof.
  induction l as [|t l (IH1 & IH2 & IH3)]; simpl.
  - repeat split; [constructor|done].
  - case_decide; simpl.
    + repeat split; [by f_equal|by constructor|done].
    + repeat split; [constructor|]. by intros ? [= <-].
Qed.

Lemma previous_tests_spec db self :
  Test.previous_tests db self
    ≡ₚ filter (prior_to self) (tests_table db)
  ∧ StronglySorted (λ a b, test_datetime b ≤ test_datetime a)
      (Test.previous_tests db self).
Proof.
  unfold Test.previous_tests, order_by_desc. split.
  - rewrite order_by_Permutation, list_filter_filter.
    rewrite (list_filter_iff _ (prior_to self)); [done|]. intros t.
    unfold prior_to, test_datetime. tauto.
  - eapply StronglySorted_mono; [|apply order_by_sorted].
    intros a b. unfold key_le, test_datetime. lia.
Qed.

(** C4. The history of a test is computed over the prior tests of the same
    suite, name and environment from strictly earlier builds, most recent
    build first: [count] is the length of the initial streak of tests with
    the test's own result, [since] the last (oldest) test of that streak and
    [last_different] the test right after the streak, whose result differs
    (absent when the streak reaches the end).  With prior results pass, pass,
    pass, fail, pass and a passing test: count 3, since the third,
    last_different the fourth. *)
Theorem C4_history (db : Database) (self : Test) :
  let prior := Test.previous_tests db self in
  let h := (Test.history db self None).1 in
  let same := streak (test_result self) prior in
  prior ≡ₚ filter (prior_to self) (tests_table db)
  ∧ StronglySorted (λ a b, test_datetime b ≤ test_datetime a) prior
  ∧ prior = same ++ after_streak (test_result self) prior
  ∧ Forall (λ t, test_result t = test_result self) same
  ∧ count h = Z.of_nat (length same)
  ∧ since h = last same
  ∧ last_different h = head (after_streak (test_result self) prior)
  ∧ (∀ t, last_different h = Some t → test_result t ≠ test_result self)
  ∧ (∀ t1 t2 t3 t4 t5,
       prior = [t1; t2; t3; t4; t5] →
       test_result self = Some true →
       test_result <$> prior
       = [Some true; Some true; Some true; Some false; Some true] →
       count h = 3 ∧ since h = Some t3 ∧ last_different h = Some t4).
Proof.
  intros prior h same.
  destruct (previous_tests_spec db self) as [Hperm Hsorted].
  destruct (streak_split (test_result self) prior) as (Hsplit & Hsame & Hdiff).
  assert (Hh : h = mkHistory (last same) (Z.of_nat (length same))
                     (head (after_streak (test_result self) prior))).
  { subst h. simpl. fold prior. rewrite walk_streak. fold same.
    f_equal. by destruct (last same). }
  rewrite Hh. simpl.
  split_and!; try done.
  intros t1 t2 t3 t4 t5 Hprior Hself Hresults. subst same.
  rewrite Hprior in *. rewrite Hself.
  injection Hresults as H1 H2 H3 H4 _. simpl.
  by rewrite H1, H2, H3, H4.
Qed.

Lemma C4_history_witness :
  let h := (Test.history db_six (boot 6 (Some true)) None).1 in
  count h = 3
  ∧ since h = Some (boot 3 (Some true))
  ∧ last_different h = Some (boot 2 (Some false)).
Proof.
  pose proof (C4_history db_six (boot 6 (Some true)))
    as (_ & _ & _ & _ & _ & _ & _ & _ & H).
  exact (H (boot 5 (Some true)) (boot 4 (Some true)) (boot 3 (Some true))
           (boot 2 (Some false)) (boot 1 (Some true))
           eq_refl eq_refl eq_refl).
Defined.

(** A later read of [history] on the same instance returns the memo, whatever
    the database has become. *)
Lemma history_memoized (db db' : Database) (self : Test) :
  let '(h, memo) := Test.history db self None in
  Test.history db' self memo = (h, memo).
Proof. reflexivity. Qed.

(** ** [ProjectStatus.builds] *)

Lemma project_builds_spec db project :
  project_builds db project ≡ₚ filter (of_project_b project) (builds_table db)
  ∧ StronglySorted (key_le build_datetime) (project_builds db project).
Proof.
  unfold project_builds. split.
  - by rewrite order_by_Permutation.
  - apply order_by_sorted.
Qed.

Lemma sorted_three (l : list Build) (b1 b2 b3 : Build) :
  StronglySorted (key_le build_datetime) l →
  l ≡ₚ [b1; b2; b3] →
  build_datetime b1 < build_datetime b2 →
  build_datetime b2 < build_datetime b3 →
  l = [b1; b2; b3].
Proof.
  intros Hl Hperm H12 H23.
  apply (StronglySorted_unique_strong (key_le build_datetime)); try done.
  - intros x1 x2 Hx1 Hx2. rewrite Hperm in Hx1. unfold key_le.
    set_unfold. intros ? ?.
    destruct Hx1 as [?|[?|[?|[]]]], Hx2 as [?|[?|[?|[]]]]; subst; done || lia.
  - unfold key_le. repeat constructor; lia.
Qed.

(** C6. The builds of a checkpoint (whose build references are set): with no
    previous checkpoint, all the builds of the project by ascending datetime;
    otherwise exactly the builds of the project later than the previous
    checkpoint's build and not later than the checkpoint's own, by ascending
    datetime.  With the previous checkpoint at B1 and the checkpoint at B3,
    and B2 in between, the builds are B2 then B3. *)
Theorem C6_checkpoint_builds (db : Database) (self : ProjectStatus)
    (build : Build) :
  ps_build self = Some build →
  let project := build_project build in
  (ps_previous self = None →
     ∃ l, ProjectStatus.builds db self = Ok l
          ∧ l ≡ₚ filter (of_project_b project) (builds_table db)
          ∧ StronglySorted (key_le build_datetime) l)
  ∧ (∀ prev previous,
       ps_previous self = Some prev → ps_build prev = Some previous →
       ∃ l, ProjectStatus.builds db self = Ok l
            ∧ l ≡ₚ filter (λ b, of_project_b project b
                                ∧ in_window previous build b)
                          (builds_table db)
            ∧ StronglySorted (key_le build_datetime) l)
  ∧ (∀ prev B1 B2,
       ps_previous self = Some prev → ps_build prev = Some B1 →
       project_builds db project ≡ₚ [B1; B2; build] →
       build_datetime B1 < build_datetime B2 →
       build_datetime B2 < build_datetime build →
       ProjectStatus.builds db self = Ok [B2; build]).
Proof.
  intros Hbuild project.
  destruct (project_builds_spec db project) as [Hperm Hsorted].
  unfold ProjectStatus.builds. rewrite Hbuild. split_and!.
  - intros ->. simpl. eauto.
  - intros prev previous -> Hprev. rewrite Hprev. simpl. fold project.
    eexists. split; [done|].
    unfold project_builds at 1. rewrite order_by_filter.
    split.
    + fold (project_builds db project). rewrite Hperm.
      rewrite list_filter_filter.
      rewrite (list_filter_iff _ (λ b, of_project_b project b
                                       ∧ in_window previous build b));
        [done|].
      intros b. unfold in_window. tauto.
    + apply order_by_sorted.
  - intros prev B1 B2 -> Hprev Hthree H12 H23. rewrite Hprev. simpl.
    fold project.
    rewrite (sorted_three _ B1 B2 build Hsorted Hthree H12 H23).
    rewrite !filter_cons, filter_nil.
    rewrite decide_False by lia.
    rewrite decide_True by lia.
    rewrite decide_True by lia.
    simpl. by destruct (Z.leb_spec (build_datetime B2) (build_datetime build)); [|lia].
Qed.

Lemma C6_checkpoint_builds_witness :
  ProjectStatus.builds db_three checkpoint_2 = Ok [build_at 2; build_at 3].
Proof.
  pose proof (C6_checkpoint_builds db_three checkpoint_2 (build_at 3) eq_refl)
    as (_ & _ & H).
  apply (H checkpoint_1 (build_at 1) (build_at 2) eq_refl eq_refl).
  - reflexivity.
  - reflexivity.
  - reflexivity.
Defined.

(** ** [ProjectStatus.create] *)

Lemma candidate_spec now project db :
  is_candidate now project db (ProjectStatus.candidate now project db).
Proof.
  unfold ProjectStatus.candidate.
  set (P := λ b : Build, build_datetime b
     < now - relativedelta_minutes (build_completion_threshold project)).
  destruct (project_builds_spec db project) as [Hperm Hsorted].
  assert (Hin : ∀ b, b ∈ filter P (project_builds db project)
                     ↔ b ∈ builds_table db ∧ completed now project b).
  { intros b. rewrite list_elem_of_filter, Hperm, list_elem_of_filter.
    unfold completed, P. tauto. }
  destruct (last (filter P (project_builds db project))) as [b|] eqn:Hlast;
    simpl.
  - assert (Hb : b ∈ filter P (project_builds db project))
      by by eapply last_Some_elem_of.
    apply Hin in Hb as [Hb Hcompleted]. split_and!; try done.
    intros b' Hb' Hcompleted'.
    eapply (last_sorted_max build_datetime); [|exact Hlast|].
    + by apply filter_sorted.
    + apply Hin. done.
  - apply last_None in Hlast. intros b' Hb' Hcompleted'.
    assert (b' ∈ filter P (project_builds db project)) as Hb by by apply Hin.
    rewrite Hlast in Hb. by apply elem_of_nil in Hb.
Qed.

Lemma foldr_max_ge (l : list Z) (x : Z) : x ∈ l → x ≤ foldr Z.max 0 l.
Proof.
  induction l as [|y l IH]; simpl.
  - by intros ?%elem_of_nil.
  - pose proof (Z.le_max_l y (foldr Z.max 0 l)).
    pose proof (Z.le_max_r y (foldr Z.max 0 l)).
    intros [->|Hin]%elem_of_cons; [lia|]. specialize (IH Hin). lia.
Qed.

Lemma next_pk_fresh db ps :
  ps ∈ project_statuses db → ps_id ps < ProjectStatus.next_pk db.
Proof.
  intros Hin. unfold ProjectStatus.next_pk.
  assert (ps_id ps ≤ foldr Z.max 0 (ps_id <$> project_statuses db)).
  { by apply foldr_max_ge, list_elem_of_fmap_2. }
  lia.
Qed.

Lemma latest_after_create now b previous db project :
  of_project_b project b →
  ProjectStatus.latest project
    (ProjectStatus.objects_create now (Some b) previous db).2
  = Some (ProjectStatus.objects_create now (Some b) previous db).1.
Proof.
  intros Hb.
  unfold ProjectStatus.latest, ProjectStatus.of_project. simpl.
  rewrite filter_app, filter_cons_True, filter_nil by (simpl; by f_equal).
  rewrite order_by_snoc; [apply last_snoc|].
  intros y [_ Hy]%list_elem_of_filter. apply next_pk_fresh in Hy. simpl. lia.
Qed.

Lemma create_unfold now project db :
  ProjectStatus.create now project db
  = match ProjectStatus.candidate now project db with
    | Some b =>
        if decide (differs_from (ProjectStatus.latest project db) b)
        then (Some (ProjectStatus.objects_create now (Some b)
                      (ProjectStatus.latest project db) db).1,
              (ProjectStatus.objects_create now (Some b)
                 (ProjectStatus.latest project db) db).2)
        else (None, db)
    | None => (None, db)
    end.
Proof.
  unfold ProjectStatus.create.
  destruct (ProjectStatus.candidate now project db) as [b|]; [|done].
  destruct (decide (differs_from (ProjectStatus.latest project db) b))
    as [Hd|Hd];
    destruct (ProjectStatus.latest project db) as [p|]; simpl in Hd;
    try done; unfold Build_eqb;
    destruct (ps_build p) as [pb|]; simpl in *; try done;
    try match goal with
        | |- context [?x =? ?y] => destruct (Z.eqb_spec x y); simpl
        end;
    try done; try congruence;
    exfalso; apply Hd; congruence.
Qed.

Lemma latest_spec project db :
  is_latest project db (ProjectStatus.latest project db).
Proof.
  unfold ProjectStatus.latest, ProjectStatus.of_project.
  match goal with |- is_latest _ _ (last ?l) => set (qs := l) end.
  assert (Hin : ∀ p, p ∈ qs ↔ p ∈ project_statuses db ∧ on_project project p).
  { intros p. subst qs. rewrite elem_of_order_by, list_elem_of_filter.
    unfold on_project. tauto. }
  assert (Hsorted : StronglySorted (key_le ps_id) qs) by apply order_by_sorted.
  clearbody qs.
  destruct (last qs) as [p|] eqn:Hlast; simpl.
  - assert (Hp := last_Some_elem_of _ _ Hlast). apply Hin in Hp as [Hp Hon].
    split_and!; try done. intros p' Hp' Hon'.
    eapply (last_sorted_max ps_id); [exact Hsorted|exact Hlast|].
    by apply Hin.
  - apply last_None in Hlast. intros p' Hp' Hon'.
    assert (Hp : p' ∈ qs) by by apply Hin.
    rewrite Hlast in Hp. by apply elem_of_nil in Hp.
Qed.

(** C1. [create] looks at the candidate (the most recent build of the
    project older than now minus the completion threshold) and at the
    project's latest checkpoint.  It returns a new checkpoint, on the
    candidate and linked to the latest one, appended to the chain, if and
    only if there is a candidate and no latest checkpoint on that same build;
    otherwise it returns nothing and changes nothing.  A second call for
    which the candidate is still the same returns nothing and changes
    nothing, so the two calls together leave exactly the row of the first. *)
Theorem C1_create (now : datetime) (project : Project) (db : Database) :
  let cand := ProjectStatus.candidate now project db in
  let previous := ProjectStatus.latest project db in
  let r := (ProjectStatus.create now project db).1 in
  let db' := (ProjectStatus.create now project db).2 in
  is_candidate now project db cand
  ∧ is_latest project db previous
  ∧ (is_Some r ↔ ∃ b, cand = Some b ∧ differs_from previous b)
  ∧ (∀ row, r = Some row →
       ps_build row = cand ∧ ps_previous row = previous
       ∧ project_statuses db' = project_statuses db ++ [row]
       ∧ builds_table db' = builds_table db
       ∧ test_runs_table db' = test_runs_table db
       ∧ tests_table db' = tests_table db)
  ∧ (r = None → db' = db)
  ∧ (∀ now', ProjectStatus.candidate now' project db' = cand →
       ProjectStatus.create now' project db' = (None, db')
       ∧ ∀ row, r = Some row →
           ProjectStatus.of_project
             (ProjectStatus.create now' project db').2 project
           = ProjectStatus.of_project db project ++ [row]).
Proof.
  intros cand previous r db'.
  pose proof (candidate_spec now project db) as Hcand. fold cand in Hcand.
  pose proof (latest_spec project db) as Hlatest. fold previous in Hlatest.
  subst r db'. rewrite create_unfold. fold cand previous.
  split; [done|]. split; [done|].
  destruct cand as [b|] eqn:Hb; simpl.
  - destruct Hcand as (Hin & [Hproj Hold] & Hmax).
    destruct (decide (differs_from previous b)) as [Hd|Hd]; simpl.
    + split_and!.
      * split; [eauto|]. intros _. by eexists.
      * intros row [= <-]. done.
      * done.
      * intros now' Hcand'.
        pose proof (latest_after_create now b previous db project Hproj)
          as Hlatest'.
        simpl in Hlatest'.
        assert (Hcreate : ProjectStatus.create now' project
            (mkDatabase (builds_table db) (test_runs_table db) (tests_table db)
               (project_statuses db ++
                  [mkProjectStatus (ProjectStatus.next_pk db) (Some b)
                     previous now]))
          = (None,
             mkDatabase (builds_table db) (test_runs_table db) (tests_table db)
               (project_statuses db ++
                  [mkProjectStatus (ProjectStatus.next_pk db) (Some b)
                     previous now]))).
        { rewrite create_unfold, Hcand', Hlatest'.
          rewrite decide_False; [done|]. simpl. by intros []. }
        rewrite Hcreate. split; [done|].
        intros row [= <-]. unfold ProjectStatus.of_project. simpl.
        rewrite filter_app, filter_cons_True, filter_nil; [done|].
        simpl. by f_equal.
    + split_and!.
      * split; [by intros [? ?]|]. intros (b' & [= <-] & Hd'). done.
      * done.
      * done.
      * intros now' Hcand'. split; [|done].
        rewrite create_unfold, Hcand'. fold previous.
        by rewrite decide_False.
  - split_and!.
    + split; [by intros [? ?]|]. by intros (b' & ? & _).
    + done.
    + done.
    + intros now' Hcand'. split; [|done].
      by rewrite create_unfold, Hcand'.
Qed.

Lemma C1_create_witness :
  let first := ProjectStatus.create (10 * hour) myproject db_six in
  let second := ProjectStatus.create (10 * hour) myproject first.2 in
  second = (None, first.2)
  ∧ ProjectStatus.of_project second.2 myproject
    = [mkProjectStatus 1 (Some (build_at 6)) None (10 * hour)].
Proof.
  pose proof (C1_create (10 * hour) myproject db_six)
    as (_ & _ & _ & _ & _ & H).
  destruct (H (10 * hour) eq_refl) as [H1 H2].
  split; [exact H1|].
  exact (H2 (mkProjectStatus 1 (Some (build_at 6)) None (10 * hour)) eq_refl).
Defined.

(** ** Metadata: [dict_intersection], [TestRun.metadata], [Build.metadata] *)

Section MetadataFacts.
Context {V : Type} `{EqDecision V}.
Implicit Types d : gmap string V.

Lemma dict_intersection_lookup d1 d2 k v :
  dict_intersection d1 d2 !! k = Some v ↔ d1 !! k = Some v ∧ d2 !! k = Some v.
Proof.
  unfold dict_intersection. rewrite map_lookup_filter_Some. simpl.
  split.
  - by intros (? & _ & ?).
  - intros [? ?]. split_and!; eauto.
Qed.

(** Of two mappings, the intersection does not depend on the order. *)
Lemma dict_intersection_comm d1 d2 :
  dict_intersection d1 d2 = dict_intersection d2 d1.
Proof.
  apply map_eq. intros k. apply option_eq. intros v.
  rewrite !dict_intersection_lookup. tauto.
Qed.

Lemma dict_intersection_empty_r d : dict_intersection d ∅ = ∅.
Proof.
  apply map_eq. intros k. apply option_eq. intros v.
  rewrite dict_intersection_lookup, !lookup_empty.
  split; [by intros [_ ?]|done].
Qed.

Lemma metadata_fold_nil : metadata_fold ([] : list (gmap string V)) = ∅.
Proof. reflexivity. Qed.

Lemma metadata_fold_two d1 d2 :
  d1 ≠ ∅ → metadata_fold [d1; d2] = dict_intersection d1 d2.
Proof.
  intros Hd1. unfold metadata_fold, metadata_step. simpl.
  destruct (decide ((∅ : gmap string V) ≠ ∅)) as [Hne|_]; [done|].
  by rewrite decide_True.
Qed.

Variable json_loads : string → result (gmap string V).

(** The loop of [Build.metadata] is the fold over the decoded metadata of
    the runs, when each of them decodes. *)
Lemma metadata_loop_decoded (runs : list TestRun)
    (mappings : list (gmap string V)) d :
  Forall2 (λ run m, TestRun.metadata json_loads run = Ok m) runs mappings →
  metadata_loop json_loads runs d = Ok (foldl metadata_step d mappings).
Proof.
  intros Hdec. revert d.
  induction Hdec as [|run m runs mappings Hrun _ IH]; intros d; simpl; [done|].
  rewrite Hrun. simpl. apply IH.
Qed.


(** [Build.metadata] of a build whose runs all decode, and of a build
    without runs. *)
Lemma Build_metadata_decoded db build (mappings : list (gmap string V)) :
  Forall2 (λ run m, TestRun.metadata json_loads run = Ok m)
          (Build.test_runs db build) mappings →
  Build.metadata json_loads db build = Ok (metadata_fold mappings).
Proof. intros Hdec. by apply metadata_loop_decoded. Qed.

Lemma Build_metadata_no_runs db build :
  Build.test_runs db build = [] → Build.metadata json_loads db build = Ok ∅.
Proof. unfold Build.metadata. by intros ->. Qed.

End MetadataFacts.

(** The cases of the repository's tests [test_metadata],
    [test_metadata_empty] and [test_metadata_no_testruns]. *)
Example test_metadata :
  metadata_fold [foo_bar_baz_qux; foo_bar_baz_fox] = foo_bar.
Proof. by vm_compute. Qed.

Example test_metadata_empty : metadata_fold [foo_bar; baz_qux] = ∅.
Proof. by vm_compute. Qed.

Example test_metadata_no_testruns :
  Build.metadata always_malformed db_three (build_at 1) = Ok ∅.
Proof. reflexivity. Qed.

(** C2. The metadata of a build depends on the order of its runs: a run
    without metadata followed by a run with [foo = bar] gives [foo = bar],
    the same two runs the other way round give the empty mapping. *)
Theorem C2_metadata_order_dependent :
  [foo_bar; ∅] ≡ₚ [∅; foo_bar]
  ∧ metadata_fold [∅; foo_bar] = foo_bar
  ∧ metadata_fold [foo_bar; ∅] = ∅
  ∧ metadata_fold [∅; foo_bar] ≠ metadata_fold [foo_bar; ∅].
Proof.
  split_and!.
  - apply perm_swap.
  - by vm_compute.
  - by vm_compute.
  - by vm_compute.
Qed.

(** C3. The metadata of a build can hold a pair that is not in the metadata
    of every run: after a run without metadata, or after two runs with
    nothing in common, the loop starts afresh from the next run. *)
Theorem C3_metadata_not_in_every_run :
  metadata_fold [∅; foo_bar] !! "foo"%string = Some "bar"%string
  ∧ (∅ : gmap string string) !! "foo"%string = None
  ∧ metadata_fold [foo_bar; baz_qux; foo_bar] !! "foo"%string
    = Some "bar"%string
  ∧ baz_qux !! "foo"%string = None.
Proof. split_and!; by vm_compute. Qed.




(** ** Doubles: the rounding of the IEEE-754 specification

    The primitive operations on [float] are specified by the standard
    library through [Prim2SF] and the functions of [SpecFloat].  What
    follows characterises those functions far enough to bound
    [100 * (p / t)] and to compute [x + (100 - x)]. *)

(** A positive number of [d] binary digits lies in [[2 ^ (d - 1), 2 ^ d)]. *)
Lemma digits_bounds (m : positive) :
  2 ^ (Zpos (digits2_pos m) - 1) ≤ Zpos m < 2 ^ Zpos (digits2_pos m).
Proof.
  induction m as [m IH|m IH|]; simpl digits2_pos.
  - rewrite Pos2Z.inj_succ.
    replace (Z.succ (Zpos (digits2_pos m)) - 1)
      with (Zpos (digits2_pos m) - 1 + 1) by lia.
    rewrite Z.pow_succ_r by lia. rewrite Z.pow_add_r by lia. lia.
  - rewrite Pos2Z.inj_succ.
    replace (Z.succ (Zpos (digits2_pos m)) - 1)
      with (Zpos (digits2_pos m) - 1 + 1) by lia.
    rewrite Z.pow_succ_r by lia. rewrite Z.pow_add_r by lia. lia.
  - simpl. lia.
Qed.

Lemma pow2_lt_inv (a b : Z) : 0 ≤ a → 0 ≤ b → 2 ^ a < 2 ^ b → a < b.
Proof. intros Ha Hb H. apply Z.pow_lt_mono_r_iff in H; lia. Qed.

Lemma digits_unique (m : positive) (d : Z) :
  0 < d → 2 ^ (d - 1) ≤ Zpos m < 2 ^ d → Zpos (digits2_pos m) = d.
Proof.
  intros Hd [Hlo Hhi]. pose proof (digits_bounds m) as [Hlo' Hhi'].
  assert (d - 1 < Zpos (digits2_pos m)).
  { apply pow2_lt_inv; lia. }
  assert (Zpos (digits2_pos m) - 1 < d).
  { apply pow2_lt_inv; lia. }
  lia.
Qed.

(** *** The right shift [shr] and round to nearest, ties to even *)

Lemma iter_pos_nat {A} (f : A → A) (p : positive) (x : A) :
  iter_pos f p x = Nat.iter (Pos.to_nat p) f x.
Proof.
  revert x. induction p as [p IH|p IH|]; intros x; simpl iter_pos.
  - rewrite !IH, Pos2Nat.inj_xI.
    replace (S (2 * Pos.to_nat p))
      with (Pos.to_nat p + (Pos.to_nat p + 1))%nat by lia.
    rewrite !Nat.iter_add. simpl. done.
  - rewrite !IH, Pos2Nat.inj_xO.
    replace (2 * Pos.to_nat p)%nat
      with (Pos.to_nat p + Pos.to_nat p)%nat by lia.
    by rewrite Nat.iter_add.
  - done.
Qed.

Lemma shr_1_spec (m : Z) (r s : bool) :
  0 ≤ m →
  shr_1 (Build_shr_record m r s)
  = Build_shr_record (m / 2) (Z.odd m) (r || s).
Proof.
  intros Hm. destruct m as [|[p|p|]|]; try lia; simpl shr_1; f_equal.
  - rewrite Pos2Z.inj_xI. apply Z.div_unique with 1; lia.
  - rewrite Pos2Z.inj_xO. apply Z.div_unique with 0; lia.
Qed.

Lemma odd_div2 (m : Z) : m = 2 * (m / 2) + Z.b2z (Z.odd m).
Proof.
  rewrite <- Z.div2_div. apply Z.div2_odd.
Qed.

(** After [k + 1] shifts the record holds the quotient by [2 ^ (k + 1)], the
    last bit shifted out, and whether anything below it was not zero. *)
Lemma shr_iter_spec (M : Z) (r0 s0 : bool) (k : nat) :
  0 ≤ M →
  ∃ m r s T,
    Nat.iter (S k) shr_1 (Build_shr_record M r0 s0) = Build_shr_record m r s
    ∧ 0 ≤ m ∧ 0 ≤ T < 2 ^ Z.of_nat k
    ∧ M = m * 2 ^ Z.of_nat (S k) + Z.b2z r * 2 ^ Z.of_nat k + T
    ∧ s = r0 || s0 || negb (T =? 0).
Proof.
  intros HM. induction k as [|k IH].
  - exists (M / 2), (Z.odd M), (r0 || s0), 0.
    rewrite Nat.iter_succ. cbn [Nat.iter nat_rect].
    rewrite shr_1_spec by done.
    change (2 ^ Z.of_nat 1) with 2. change (2 ^ Z.of_nat 0) with 1.
    refine (conj _ (conj _ (conj _ (conj _ _)))).
    + done.
    + apply Z.div_pos; lia.
    + lia.
    + pose proof (odd_div2 M). lia.
    + by rewrite orb_false_r.
  - destruct IH as (m & r & s & T & Hiter & Hm & HT & HMeq & Hs).
    exists (m / 2), (Z.odd m), (r || s), (Z.b2z r * 2 ^ Z.of_nat k + T).
    rewrite Nat.iter_succ, Hiter, shr_1_spec by done.
    assert (Hpow : 2 ^ Z.of_nat (S k) = 2 * 2 ^ Z.of_nat k).
    { rewrite Nat2Z.inj_succ, Z.pow_succ_r; lia. }
    assert (Hpow' : 2 ^ Z.of_nat (S (S k)) = 2 * 2 ^ Z.of_nat (S k)).
    { rewrite (Nat2Z.inj_succ (S k)), Z.pow_succ_r; lia. }
    assert (0 < 2 ^ Z.of_nat k) by (apply Z.pow_pos_nonneg; lia).
    refine (conj _ (conj _ (conj _ (conj _ _)))).
    + done.
    + apply Z.div_pos; lia.
    + rewrite Hpow. destruct r; simpl; lia.
    + pose proof (odd_div2 m) as Hodd.
      rewrite Hpow', Hpow in *. destruct r, (Z.odd m); simpl in *; nia.
    + rewrite Hs. destruct r; simpl.
      * destruct (Z.eqb_spec (1 * 2 ^ Z.of_nat k + T) 0); [lia|].
        simpl. by rewrite !orb_true_r.
      * destruct (r0 || s0); done.
Qed.

Lemma shr_exponent mrs e k :
  shr mrs e k = ((shr mrs 0 k).1, if 0 <? k then e + k else e).
Proof. by destruct k. Qed.

Lemma loc_of_record_of_loc M lx :
  loc_of_shr_record (shr_record_of_loc M lx) = lx
  ∧ shr_m (shr_record_of_loc M lx) = M.
Proof. by destruct lx as [|[]]. Qed.

Lemma record_of_loc_eta M lx :
  ∃ r0 s0, shr_record_of_loc M lx = Build_shr_record M r0 s0
           ∧ (lx = loc_Exact → r0 = false ∧ s0 = false).
Proof.
  destruct lx as [|[]]; simpl; eexists _, _; (split; [reflexivity|]); done.
Qed.

Lemma round_nearest_even_bounds m l :
  m ≤ round_nearest_even m l ≤ m + 1.
Proof. destruct l as [|[]]; simpl; try lia. destruct (Z.even m); lia. Qed.

Lemma rounded_noshift M lx k :
  k ≤ 0 → rounded M lx k = round_nearest_even M lx.
Proof.
  intros Hk. unfold rounded.
  destruct k; try lia; simpl; by destruct (loc_of_record_of_loc M lx) as [-> ->].
Qed.

Lemma rounded_shift M lx k :
  0 ≤ M → 0 < k →
  ∃ m r s T,
    rounded M lx k
    = round_nearest_even m (loc_of_shr_record (Build_shr_record m r s))
    ∧ m = M / 2 ^ k
    ∧ 0 ≤ T < 2 ^ (k - 1)
    ∧ M = m * 2 ^ k + Z.b2z r * 2 ^ (k - 1) + T
    ∧ (lx = loc_Exact → s = negb (T =? 0)).
Proof.
  intros HM Hk. destruct k as [|p|p]; try lia.
  destruct (record_of_loc_eta M lx) as (r0 & s0 & Hrec & Hexact).
  unfold rounded. rewrite Hrec. simpl shr. cbn [fst].
  rewrite iter_pos_nat.
  destruct (Pos2Nat.is_succ p) as [n Hn]. rewrite Hn.
  destruct (shr_iter_spec M r0 s0 n HM) as (m & r & s & T & -> & Hm & HT & HMeq & Hs).
  assert (HSn : Z.of_nat (S n) = Zpos p) by lia.
  assert (Hn' : Z.of_nat n = Zpos p - 1) by lia.
  rewrite HSn, Hn' in *.
  exists m, r, s, T. cbn [shr_m].
  assert (Hpow : 2 ^ Zpos p = 2 * 2 ^ (Zpos p - 1)).
  { replace (Zpos p) with (Z.succ (Zpos p - 1)) at 1 by lia.
    rewrite Z.pow_succ_r; lia. }
  refine (conj _ (conj _ (conj _ (conj _ _)))); try done.
  - apply Z.div_unique with (Z.b2z r * 2 ^ (Zpos p - 1) + T); [|lia].
    left. destruct r; simpl; lia.
  - intros Hlx. destruct (Hexact Hlx) as [-> ->]. done.
Qed.

Lemma rounded_bounds M lx k :
  0 ≤ M →
  M / 2 ^ Z.max k 0 ≤ rounded M lx k ≤ M / 2 ^ Z.max k 0 + 1.
Proof.
  intros HM. destruct (Z.lt_ge_cases 0 k) as [Hk|Hk].
  - destruct (rounded_shift M lx k HM Hk) as (m & r & s & T & -> & Hm & _).
    rewrite Z.max_l by lia. rewrite <- Hm.
    apply round_nearest_even_bounds.
  - rewrite rounded_noshift by done. rewrite Z.max_r by lia.
    change (2 ^ 0) with 1. rewrite Z.div_1_r.
    apply round_nearest_even_bounds.
Qed.

(** Rounding [k] bits away from an exact mantissa is to nearest, and on a tie
    the result is even. *)
Lemma rounded_nearest M k :
  0 ≤ M → 0 < k →
  2 * Z.abs (rounded M loc_Exact k * 2 ^ k - M) ≤ 2 ^ k
  ∧ (2 * Z.abs (rounded M loc_Exact k * 2 ^ k - M) = 2 ^ k →
     Z.even (rounded M loc_Exact k) = true).
Proof.
  intros HM Hk.
  destruct (rounded_shift M loc_Exact k HM Hk)
    as (m & r & s & T & -> & Hm & HT & HMeq & Hs).
  specialize (Hs eq_refl).
  assert (Hpow : 2 ^ k = 2 * 2 ^ (k - 1)).
  { replace k with (Z.succ (k - 1)) at 1 by lia.
    rewrite Z.pow_succ_r; lia. }
  assert (0 < 2 ^ (k - 1)) by (apply Z.pow_pos_nonneg; lia).
  destruct r; simpl in HMeq.
  - destruct (Z.eqb_spec T 0) as [->|HT0]; simpl in Hs; subst s; simpl.
    + destruct (Z.even m) eqn:Heven.
      * split; [lia|done].
      * split; [lia|]. intros _. rewrite Z.even_add, Heven. done.
    + split; [lia|]. lia.
  - destruct s; simpl; split; lia.
Qed.

Lemma rounded_exact_eq M lx k :
  lx = loc_Exact → 0 ≤ M → M mod 2 ^ Z.max k 0 = 0 →
  rounded M lx k = M / 2 ^ Z.max k 0.
Proof.
  intros -> HM Hmod. destruct (Z.lt_ge_cases 0 k) as [Hk|Hk].
  - rewrite Z.max_l in * by lia.
    destruct (rounded_nearest M k HM Hk) as [Hnear _].
    pose proof (rounded_bounds M loc_Exact k HM) as Hb.
    rewrite Z.max_l in Hb by lia.
    assert (0 < 2 ^ k) by (apply Z.pow_pos_nonneg; lia).
    assert (M = 2 ^ k * (M / 2 ^ k)).
    { pose proof (Z.div_mod M (2 ^ k)). lia. }
    nia.
  - rewrite rounded_noshift by done. rewrite Z.max_r by lia.
    change (2 ^ 0) with 1. by rewrite Z.div_1_r.
Qed.

Lemma fexp_eq (e : Z) : fexp prec emax e = Z.max (e - 53) (-1074).
Proof. reflexivity. Qed.

(** *** [binary_round_aux] and [binary_round] *)

Lemma bra_shape (sx : bool) (p : positive) (ex : Z) (lx : location) :
  let k := fexp prec emax (Zpos (digits2_pos p) + ex) - ex in
  let m2 := rounded (Zpos p) lx k in
  0 ≤ m2 ≤ 2 ^ 53
  ∧ binary_round_aux prec emax sx (Zpos p) ex lx
    = finish sx m2 (if 0 <? k then ex + k else ex).
Proof.
  intros k m2.
  pose proof (digits_bounds p) as [Hlo Hhi].
  set (d := Zpos (digits2_pos p)) in *.
  assert (Hd : 0 < d) by (unfold d; lia).
  assert (Hk : d - 53 ≤ k ∧ -1074 - ex ≤ k).
  { unfold k. rewrite fexp_eq. lia. }
  pose proof (rounded_bounds (Zpos p) lx k ltac:(lia)) as Hb. fold m2 in Hb.
  assert (Hm1 : 0 ≤ Zpos p / 2 ^ Z.max k 0 < 2 ^ 53).
  { split; [apply Z.div_pos; [lia|apply Z.pow_pos_nonneg; lia]|].
    apply Z.div_lt_upper_bound; [apply Z.pow_pos_nonneg; lia|].
    rewrite <- Z.pow_add_r by lia.
    eapply Z.lt_le_trans; [exact Hhi|]. apply Z.pow_le_mono_r; lia. }
  split; [lia|].
  unfold binary_round_aux, shr_fexp. cbn [Zdigits2]. fold d. fold k.
  rewrite (shr_exponent _ ex k).
  change (round_nearest_even _ _) with m2.
  set (e1 := if 0 <? k then ex + k else ex).
  assert (He1 : -1074 ≤ e1).
  { unfold e1. destruct (Z.ltb_spec 0 k); lia. }
  unfold finish.
  destruct (Z.eqb_spec m2 0) as [Hm0|Hm0].
  - rewrite Hm0. cbn [Zdigits2]. rewrite fexp_eq.
    rewrite (shr_exponent _ e1).
    replace (Z.max (0 + e1 - 53) (-1074) - e1)
      with (- (e1 - Z.max (e1 - 53) (-1074))) by lia.
    destruct (e1 - Z.max (e1 - 53) (-1074)) eqn:Hk2; try lia; simpl; done.
  - destruct m2 as [|q|q] eqn:Hm2; try lia. cbn [Zdigits2].
    pose proof (digits_bounds q) as [Hqlo Hqhi].
    rewrite fexp_eq. rewrite (shr_exponent _ e1).
    destruct (Z.ltb_spec (Zpos q) (2 ^ 53)) as [Hlt|Hge].
    + assert (Zpos (digits2_pos q) ≤ 53).
      { assert (Zpos (digits2_pos q) - 1 < 53); [|lia].
        apply pow2_lt_inv; lia. }
      destruct (Z.max (Zpos (digits2_pos q) + e1 - 53) (-1074) - e1) eqn:Hk2;
        try lia; simpl; rewrite ?Pos2Z.id; done.
    + assert (Hq : Zpos q = 2 ^ 53) by lia.
      assert (Hdq : Zpos (digits2_pos q) = 54).
      { apply digits_unique; [lia|]. rewrite Hq. simpl. lia. }
      rewrite Hdq.
      replace (Z.max (54 + e1 - 53) (-1074) - e1) with 1 by lia.
      injection Hq as ->. simpl. done.
Qed.

Lemma iter_xO (m d : positive) : Zpos (Pos.iter xO m d) = Zpos m * 2 ^ Zpos d.
Proof.
  induction d as [|d IH] using Pos.peano_ind.
  - simpl. lia.
  - rewrite Pos.iter_succ, Pos2Z.inj_xO, IH, Pos2Z.inj_succ.
    rewrite Z.pow_succ_r by lia. lia.
Qed.

(** The mantissa of [shl_align m e e']: [m] scaled to the smaller exponent. *)
Lemma shl_align_spec (m : positive) (e e' : Z) :
  shl_align m e e'
  = (Z.to_pos (Zpos m * 2 ^ (e - Z.min e e')), Z.min e e').
Proof.
  unfold shl_align. destruct (e' - e) as [|d|d] eqn:Hd.
  - rewrite Z.min_l by lia. replace (e - e) with 0 by lia.
    rewrite Z.mul_1_r. by rewrite Pos2Z.id.
  - rewrite Z.min_l by lia. replace (e - e) with 0 by lia.
    rewrite Z.mul_1_r. by rewrite Pos2Z.id.
  - rewrite Z.min_r by lia. replace (e - e') with (Zpos d) by lia.
    by rewrite <- iter_xO, Pos2Z.id.
Qed.

Lemma digits_shift (m : positive) (j : Z) :
  0 ≤ j →
  Zpos (digits2_pos (Z.to_pos (Zpos m * 2 ^ j))) = Zpos (digits2_pos m) + j.
Proof.
  intros Hj. pose proof (digits_bounds m) as [Hlo Hhi].
  assert (0 < 2 ^ j) by (apply Z.pow_pos_nonneg; lia).
  apply digits_unique; [lia|].
  rewrite Z2Pos.id by lia.
  replace (Zpos (digits2_pos m) + j - 1) with (Zpos (digits2_pos m) - 1 + j) by lia.
  rewrite !Z.pow_add_r by lia. nia.
Qed.

Lemma bround_shape (sx : bool) (p : positive) (ex : Z) :
  let E := fexp prec emax (Zpos (digits2_pos p) + ex) in
  binary_round prec emax sx p ex
  = finish sx (if E <=? ex then Zpos p * 2 ^ (ex - E)
               else rounded (Zpos p) loc_Exact (E - ex)) E.
Proof.
  intros E. unfold binary_round. fold E. rewrite shl_align_spec.
  assert (HE : -1074 ≤ E) by (unfold E; rewrite fexp_eq; lia).
  destruct (Z.leb_spec E ex) as [Hle|Hgt].
  - rewrite Z.min_r by lia.
    assert (0 < 2 ^ (ex - E)) by (apply Z.pow_pos_nonneg; lia).
    destruct (bra_shape sx (Z.to_pos (Zpos p * 2 ^ (ex - E))) E loc_Exact)
      as [_ ->].
    rewrite digits_shift by lia.
    replace (Zpos (digits2_pos p) + (ex - E) + E)
      with (Zpos (digits2_pos p) + ex) by lia.
    fold E. replace (E - E) with 0 by lia. simpl (0 <? 0).
    cbv iota. rewrite rounded_noshift by lia. simpl round_nearest_even.
    by rewrite Z2Pos.id by lia.
  - rewrite Z.min_l by lia. replace (ex - ex) with 0 by lia.
    rewrite Z.mul_1_r, Pos2Z.id.
    destruct (bra_shape sx p ex loc_Exact) as [_ ->]. fold E.
    destruct (Z.ltb_spec 0 (E - ex)); [|lia].
    by replace (ex + (E - ex)) with E by lia.
Qed.

(** *** Counts as doubles, their quotient and its percentage *)

(** An integer below [2 ^ 53] converts exactly. *)
Lemma int_float_spec (n : Z) :
  0 < n < 2 ^ 53 →
  ∃ (m : positive) (d : Z),
    0 < d ≤ 53
    ∧ 2 ^ (d - 1) ≤ n < 2 ^ d
    ∧ Zpos m = n * 2 ^ (53 - d)
    ∧ Zpos (digits2_pos m) = 53
    ∧ int_float n = S754_finite false m (d - 53)
    ∧ valid_binary (int_float n) = true.
Proof.
  intros [Hn0 Hn]. destruct n as [|p|p]; try lia.
  pose proof (digits_bounds p) as [Hlo Hhi].
  set (d := Zpos (digits2_pos p)) in *.
  assert (Hd : d ≤ 53).
  { assert (d - 1 < 53); [|lia]. apply pow2_lt_inv; lia. }
  assert (0 < d) by (unfold d; lia).
  assert (Hpos : 0 < 2 ^ (53 - d)) by (apply Z.pow_pos_nonneg; lia).
  exists (Z.to_pos (Zpos p * 2 ^ (53 - d))), d.
  assert (Hdig : Zpos (digits2_pos (Z.to_pos (Zpos p * 2 ^ (53 - d)))) = 53).
  { rewrite digits_shift by lia. fold d. lia. }
  assert (Hval : Zpos (Z.to_pos (Zpos p * 2 ^ (53 - d))) < 2 ^ 53).
  { pose proof (digits_bounds (Z.to_pos (Zpos p * 2 ^ (53 - d)))) as [_ Hb].
    by rewrite Hdig in Hb. }
  assert (Hfloat : int_float (Zpos p)
                   = S754_finite false (Z.to_pos (Zpos p * 2 ^ (53 - d))) (d - 53)).
  { unfold int_float, binary_normalize. rewrite bround_shape. fold d.
    rewrite fexp_eq, Z.add_0_r. rewrite Z.max_l by lia.
    destruct (Z.leb_spec (d - 53) 0); [|lia].
    replace (0 - (d - 53)) with (53 - d) by lia.
    unfold finish.
    rewrite Z2Pos.id in Hval by lia.
    destruct (Z.eqb_spec (Zpos p * 2 ^ (53 - d)) 0); [lia|].
    destruct (Z.ltb_spec (Zpos p * 2 ^ (53 - d)) (2 ^ 53)); [|lia].
    destruct (Z.leb_spec (d - 53) 971); [done|lia]. }
  refine (conj _ (conj _ (conj _ (conj _ (conj _ _))))); try done.
  - rewrite Z2Pos.id; lia.
  - rewrite Hfloat.
    unfold FloatAxioms.valid_binary, SpecFloat.valid_binary, bounded,
      canonical_mantissa.
    rewrite Hdig, fexp_eq.
    change (emax - prec) with 971.
    apply andb_true_intro. split; [apply Z.eqb_eq|apply Z.leb_le]; lia.
Qed.

Lemma new_location_0 (n : Z) : new_location n 0 = loc_Exact.
Proof.
  unfold new_location, new_location_even, new_location_odd.
  by destruct (Z.even n).
Qed.

Lemma div_core_53 (mp mt : positive) (ep et : Z) :
  Zpos (digits2_pos mp) = 53 → Zpos (digits2_pos mt) = 53 →
  -1000 ≤ ep - et ≤ 1000 →
  SFdiv_core_binary prec emax (Zpos mp) ep (Zpos mt) et
  = (Zpos mp * 2 ^ 53 / Zpos mt, ep - et - 53,
     new_location (Zpos mt) ((Zpos mp * 2 ^ 53) mod Zpos mt)).
Proof.
  intros Hdp Hdt He. unfold SFdiv_core_binary. cbn [Zdigits2].
  rewrite Hdp, Hdt, fexp_eq.
  replace (Z.min (Z.max (53 + ep - (53 + et) - 53) (-1074)) (ep - et))
    with (ep - et - 53) by lia.
  replace (ep - et - (ep - et - 53)) with 53 by lia.
  cbv iota. rewrite Z.shiftl_mul_pow2 by lia.
  unfold Z.div, Z.modulo.
  by destruct (Z.div_eucl (Zpos mp * 2 ^ 53) (Zpos mt)).
Qed.

(** The quotient of two counts [p <= t] rounds to a double that is at most
    1. *)
Lemma div_le_one (p t : Z) :
  0 < p → p ≤ t → t < 2 ^ 53 →
  le_one (SF64div (int_float p) (int_float t)).
Proof.
  intros Hp Hpt Ht.
  destruct (int_float_spec p) as (mp & dp & Hdp & Hpb & Hmp & Hdmp & Hfp & _);
    [lia|].
  destruct (int_float_spec t) as (mt & dt & Hdt & Htb & Hmt & Hdmt & Hft & _);
    [lia|].
  rewrite Hfp, Hft. unfold SF64div, SFdiv.
  rewrite div_core_53 by (done || lia).
  cbv beta iota. change (xorb false false) with false.
  set (q := Zpos mp * 2 ^ 53 / Zpos mt).
  set (e' := dp - 53 - (dt - 53) - 53).
  pose proof (digits_bounds mp) as [Hmplo Hmphi]. rewrite Hdmp in *.
  pose proof (digits_bounds mt) as [Hmtlo Hmthi]. rewrite Hdmt in *.
  change (53 - 1) with 52 in *.
  assert (Hq52 : 2 ^ 52 ≤ q).
  { unfold q. apply Z.div_le_lower_bound; [lia|].
    apply Z.le_trans with (2 ^ 53 * 2 ^ 52).
    - apply Z.mul_le_mono_nonneg_r; lia.
    - rewrite (Z.mul_comm (2 ^ 53)). apply Z.mul_le_mono_nonneg_r; lia. }
  (* the quotient is at most [2 ^ (- e')] *)
  assert (He' : - e' = 53 + dt - dp) by (unfold e'; lia).
  assert (Hpows : 2 ^ (53 - dt) * 2 ^ (- e') = 2 ^ (106 - dp)
                  ∧ 2 ^ (53 - dp) * 2 ^ 53 = 2 ^ (106 - dp)).
  { rewrite <- !Z.pow_add_r by lia. split; f_equal; lia. }
  destruct Hpows as [Hpow1 Hpow2].
  assert (0 < 2 ^ (106 - dp)) by (apply Z.pow_pos_nonneg; lia).
  assert (0 < 2 ^ (- e')) by (apply Z.pow_pos_nonneg; lia).
  assert (Hnum : Zpos mp * 2 ^ 53 = p * 2 ^ (106 - dp)) by (rewrite Hmp; nia).
  assert (Hden : Zpos mt * 2 ^ (- e') = t * 2 ^ (106 - dp)) by (rewrite Hmt; nia).
  assert (Hqle : q ≤ 2 ^ (- e')).
  { unfold q. apply Z.div_le_upper_bound; [lia|]. nia. }
  destruct q as [|qp|qp] eqn:Hqeq; try lia.
  destruct (bra_shape false qp e'
              (new_location (Zpos mt) ((Zpos mp * 2 ^ 53) mod Zpos mt)))
    as [Hm2 ->].
  set (lx := new_location _ _) in *.
  set (dq := Zpos (digits2_pos qp)) in *.
  pose proof (digits_bounds qp) as [Hqlo Hqhi]. fold dq in Hqlo, Hqhi.
  assert (Hdq53 : 53 ≤ dq).
  { assert (52 < dq); [|lia]. apply pow2_lt_inv; [lia|unfold dq; lia|lia]. }
  rewrite fexp_eq.
  destruct (Z.eq_dec (Zpos qp) (2 ^ (- e'))) as [Heq|Hne].
  - (* p = t: the quotient is a power of two and exact *)
    assert (Hpt' : p = t).
    { pose proof (Z.mul_div_le (Zpos mp * 2 ^ 53) (Zpos mt) ltac:(lia)) as Hdiv.
      fold q in Hdiv. rewrite Hqeq, Heq, Hden, Hnum in Hdiv.
      apply Z.mul_le_mono_pos_r in Hdiv; lia. }
    subst t.
    assert (dt = dp).
    { assert (dt - 1 < dp) by (apply pow2_lt_inv; lia).
      assert (dp - 1 < dt) by (apply pow2_lt_inv; lia). lia. }
    subst dt.
    assert (e' = -53) by lia.
    assert (Hmm : Zpos mt = Zpos mp) by lia. injection Hmm as ->.
    assert (Hlx : lx = loc_Exact).
    { unfold lx. rewrite (Z.mul_comm (Zpos mp)), Z.mod_mul by lia.
      apply new_location_0. }
    assert (Hdq : dq = 54).
    { unfold dq. apply digits_unique; [lia|]. rewrite Heq.
      replace (- e') with 53 by lia. simpl. lia. }
    rewrite Hdq.
    replace (Z.max (54 + e' - 53) (-1074) - e') with 1 by lia.
    rewrite rounded_exact_eq; try done.
    + rewrite Heq. replace (- e') with 53 by lia.
      replace e' with (-53) by lia.
      vm_compute. split; [done|]. intros Hneq; discriminate Hneq.
    + rewrite Heq. replace (- e') with 53 by lia. reflexivity.
  - (* p < t *)
    assert (Hlt : Zpos qp < 2 ^ (- e')) by lia.
    assert (dq ≤ - e').
    { assert (dq - 1 < - e'); [|lia]. apply pow2_lt_inv; lia. }
    set (k := Z.max (dq + e' - 53) (-1074) - e') in *.
    assert (Hk : k = dq - 53) by (unfold k; lia).
    set (m2 := rounded (Zpos qp) lx k) in *.
    pose proof (rounded_bounds (Zpos qp) lx k ltac:(lia)) as Hb. fold m2 in Hb.
    assert (Hm2lo : 2 ^ 52 ≤ m2).
    { eapply Z.le_trans; [|apply Hb].
      apply Z.div_le_lower_bound; [apply Z.pow_pos_nonneg; lia|].
      rewrite <- Z.pow_add_r by lia.
      replace (Z.max k 0 + 52) with (dq - 1) by lia. lia. }
    set (e1 := if 0 <? k then e' + k else e').
    assert (He1 : e1 = dq + e' - 53).
    { unfold e1. destruct (Z.ltb_spec 0 k); lia. }
    unfold finish.
    destruct (Z.eqb_spec m2 0); [lia|].
    destruct (Z.ltb_spec m2 (2 ^ 53)).
    + destruct (Z.leb_spec e1 971); [|lia].
      cbv beta iota delta [le_one]. split; [lia|]. rewrite Z2Pos.id by lia.
      eapply Z.le_trans; [apply Z.lt_le_incl; eassumption|].
      apply Z.pow_le_mono_r; lia.
    + destruct (Z.leb_spec (e1 + 1) 971); [|lia].
      cbv beta iota delta [le_one]. split; [lia|].
      change (Zpos (Z.to_pos (2 ^ 52))) with (2 ^ 52).
      apply Z.pow_le_mono_r; lia.
Qed.

Lemma hundred_m_eq : hundred_m = 25 * 2 ^ 48.
Proof. reflexivity. Qed.

Lemma hundred_m_bounds : 2 ^ 52 ≤ hundred_m < 2 ^ 53.
Proof. rewrite hundred_m_eq. split; [by vm_compute|reflexivity]. Qed.

(** 100 times a double that is at most 1 rounds to a double that is at most
    100. *)
Lemma mul_le_100 (Q : spec_float) : le_one Q → le_100 (SF64mul SF_100 Q).
Proof.
  destruct Q as [| | |[] mq eq]; try done. intros [Heq Hmq].
  unfold SF64mul, SFmul, SF_100. change (xorb false false) with false.
  set (ex := -46 + eq).
  destruct (bra_shape false (hundred_p * mq) ex loc_Exact) as [Hm2 ->].
  set (d := Zpos (digits2_pos (hundred_p * mq))) in *.
  pose proof (digits_bounds (hundred_p * mq)) as [Hlo Hhi]. fold d in Hlo, Hhi.
  rewrite Pos2Z.inj_mul in *. fold hundred_m in *.
  pose proof hundred_m_bounds as [Hclo Hchi].
  set (M := hundred_m * Zpos mq) in *.
  assert (Hpe : 0 < 2 ^ (- eq)) by (apply Z.pow_pos_nonneg; lia).
  assert (HM : M ≤ hundred_m * 2 ^ (- eq)) by (unfold M; nia).
  assert (Hd : d + ex ≤ 7).
  { assert (d - 1 < 53 + - eq); [|unfold ex; lia].
    apply pow2_lt_inv; [unfold d; lia|lia|].
    rewrite Z.pow_add_r by lia. nia. }
  rewrite fexp_eq in *.
  set (k := Z.max (d + ex - 53) (-1074) - ex) in *.
  set (m2 := rounded M loc_Exact k) in *.
  set (e1 := if 0 <? k then ex + k else ex).
  assert (He1 : e1 ≤ -46 ∧ e1 = ex + Z.max k 0).
  { unfold e1. destruct (Z.ltb_spec 0 k); unfold k, ex in *; lia. }
  destruct He1 as [He1 He1'].
  (* the rounded mantissa is below that of 100 at the same exponent *)
  assert (Hbound : m2 ≤ hundred_m * 2 ^ (-46 - e1)).
  { destruct (Z.lt_ge_cases 0 k) as [Hk|Hk].
    - destruct (rounded_nearest M k ltac:(unfold M; lia) Hk) as [Hnear _].
      fold m2 in Hnear.
      assert (Hsplit : 2 ^ (- eq) = 2 ^ (-46 - e1) * 2 ^ k).
      { rewrite <- Z.pow_add_r by lia. f_equal. unfold ex in *. lia. }
      assert (0 < 2 ^ k) by (apply Z.pow_pos_nonneg; lia).
      assert (0 < 2 ^ (-46 - e1)) by (apply Z.pow_pos_nonneg; lia).
      rewrite Hsplit in HM.
      destruct (Z.le_gt_cases m2 (hundred_m * 2 ^ (-46 - e1))) as [|Hgt];
        [done|exfalso].
      assert ((hundred_m * 2 ^ (-46 - e1) + 1) * 2 ^ k ≤ m2 * 2 ^ k).
      { apply Z.mul_le_mono_nonneg_r; lia. }
      nia.
    - unfold m2. rewrite rounded_noshift by lia. simpl round_nearest_even.
      replace (-46 - e1) with (- eq) by (unfold ex in *; lia). done. }
  assert (0 < 2 ^ (-46 - e1)) by (apply Z.pow_pos_nonneg; lia).
  unfold finish.
  destruct (Z.eqb_spec m2 0); [done|].
  destruct (Z.ltb_spec m2 (2 ^ 53)).
  - destruct (Z.leb_spec e1 971); [|lia].
    cbv beta iota delta [le_100]. split; [lia|]. by rewrite Z2Pos.id by lia.
  - destruct (Z.leb_spec (e1 + 1) 971); [|lia].
    cbv beta iota delta [le_100].
    change (Zpos (Z.to_pos (2 ^ 52))) with (2 ^ 52).
    assert (He47 : e1 ≤ -47).
    { destruct (Z.eq_dec e1 (-46)) as [->|]; [|lia].
      change (2 ^ (-46 - -46)) with 1 in Hbound. lia. }
    split; [lia|].
    assert (Hsplit : 2 ^ (-46 - e1) = 2 * 2 ^ (-46 - (e1 + 1))).
    { rewrite <- Z.pow_succ_r by lia. f_equal. lia. }
    rewrite Hsplit in Hbound.
    change (2 ^ 53) with (2 * 2 ^ 52) in *. lia.
Qed.

Lemma finish_100 : finish false hundred_m (-46) = SF_100.
Proof. reflexivity. Qed.

Lemma pow2_split (a b : Z) : 0 ≤ a → 0 ≤ b → 2 ^ (a + b) = 2 ^ a * 2 ^ b.
Proof. intros. by rewrite Z.pow_add_r. Qed.

(** Rounding an integer within half a unit of [100 * 2 ^ k] to [k] bits less
    gives the mantissa of 100: on a tie the even neighbour is 100 itself. *)
Lemma rounded_to_100 (S δ k : Z) :
  0 < k → S = hundred_m * 2 ^ k + δ → 2 * Z.abs δ ≤ 2 ^ k →
  rounded S loc_Exact k = hundred_m.
Proof.
  intros Hk HS Hδ.
  assert (Hpk : 0 < 2 ^ k) by (apply Z.pow_pos_nonneg; lia).
  pose proof hundred_m_bounds as [Hclo Hchi].
  assert (HS0 : 0 ≤ S).
  { assert (2 ^ 52 * 2 ^ k ≤ hundred_m * 2 ^ k)
      by (apply Z.mul_le_mono_nonneg_r; lia).
    assert (1 * 2 ^ k ≤ 2 ^ 52 * 2 ^ k)
      by (apply Z.mul_le_mono_nonneg_r; lia).
    lia. }
  destruct (rounded_nearest S k HS0 Hk) as [Hnear Htie].
  set (r := rounded S loc_Exact k) in *.
  assert (Hr : hundred_m - 1 ≤ r ≤ hundred_m + 1) by nia.
  destruct (Z.eq_dec r hundred_m) as [|Hne]; [done|exfalso].
  assert (Hcases : r = hundred_m + 1 ∨ r = hundred_m - 1) by lia.
  assert (Heven : Z.even r = true).
  { apply Htie. destruct Hcases as [Hr'|Hr']; rewrite Hr' in *; nia. }
  destruct Hcases as [Hr'|Hr']; rewrite Hr' in Heven; by vm_compute in Heven.
Qed.

(** An aligned sum within half a unit in the last place of 100. *)
Lemma normalize_to_100 (S δ e : Z) :
  e ≤ -46 → S = hundred_m * 2 ^ (-46 - e) + δ → 2 * Z.abs δ ≤ 2 ^ (-46 - e) →
  binary_normalize prec emax S e false = SF_100.
Proof.
  intros He HS Hδ.
  assert (Hpk : 0 < 2 ^ (-46 - e)) by (apply Z.pow_pos_nonneg; lia).
  pose proof hundred_m_eq as Hc.
  set (P := 2 ^ (-46 - e)) in *.
  assert (Hbounds : 2 ^ 52 * P ≤ S - δ ∧ S - δ = 25 * 2 ^ 48 * P) by lia.
  assert (HSlo : 2 ^ (6 - e) ≤ S ∧ S < 2 ^ (7 - e)).
  { replace (6 - e) with (52 + (-46 - e)) by lia.
    replace (7 - e) with (53 + (-46 - e)) by lia.
    rewrite !pow2_split by lia. fold P.
    change (2 ^ 53) with (32 * 2 ^ 48). change (2 ^ 52) with (16 * 2 ^ 48).
    assert (1 ≤ 2 ^ 48) by done. nia. }
  assert (0 < 2 ^ (6 - e)) by (apply Z.pow_pos_nonneg; lia).
  destruct S as [|pS|pS] eqn:HSeq; try lia.
  unfold binary_normalize. rewrite bround_shape.
  assert (Hd : Zpos (digits2_pos pS) = 7 - e).
  { apply digits_unique; [lia|]. by replace (7 - e - 1) with (6 - e) by lia. }
  rewrite Hd, fexp_eq.
  replace (Z.max (7 - e + e - 53) (-1074)) with (-46) by lia.
  destruct (Z.leb_spec (-46) e).
  - assert (e = -46) by lia. subst e.
    change (-46 - -46) with 0 in *. unfold P in *.
    change (2 ^ 0) with 1 in *.
    assert (δ = 0) by lia. subst δ.
    rewrite Z.mul_1_r. replace (Zpos pS) with hundred_m by lia.
    apply finish_100.
  - rewrite (rounded_to_100 (Zpos pS) δ (-46 - e)); [apply finish_100|lia|..].
    + by fold P.
    + done.
Qed.

Lemma SFadd_finite (m1 m2 : positive) (e1 e2 : Z) :
  SF64add (S754_finite false m1 e1) (S754_finite false m2 e2)
  = binary_normalize prec emax
      (Zpos m1 * 2 ^ (e1 - Z.min e1 e2) + Zpos m2 * 2 ^ (e2 - Z.min e1 e2))
      (Z.min e1 e2) false.
Proof.
  unfold SF64add, SFadd. cbv zeta. rewrite !shl_align_spec. cbn [fst cond_Zopp].
  replace (Z.min e1 (Z.min e1 e2)) with (Z.min e1 e2) by lia.
  replace (Z.min e2 (Z.min e1 e2)) with (Z.min e1 e2) by lia.
  assert (0 < 2 ^ (e1 - Z.min e1 e2)) by (apply Z.pow_pos_nonneg; lia).
  assert (0 < 2 ^ (e2 - Z.min e1 e2)) by (apply Z.pow_pos_nonneg; lia).
  rewrite !Z2Pos.id by lia. done.
Qed.

Lemma SFsub_finite (m1 m2 : positive) (e1 e2 : Z) :
  SF64sub (S754_finite false m1 e1) (S754_finite false m2 e2)
  = binary_normalize prec emax
      (Zpos m1 * 2 ^ (e1 - Z.min e1 e2) - Zpos m2 * 2 ^ (e2 - Z.min e1 e2))
      (Z.min e1 e2) false.
Proof.
  unfold SF64sub, SFsub. cbv zeta. rewrite !shl_align_spec. cbn [fst cond_Zopp].
  replace (Z.min e1 (Z.min e1 e2)) with (Z.min e1 e2) by lia.
  replace (Z.min e2 (Z.min e1 e2)) with (Z.min e1 e2) by lia.
  assert (0 < 2 ^ (e1 - Z.min e1 e2)) by (apply Z.pow_pos_nonneg; lia).
  assert (0 < 2 ^ (e2 - Z.min e1 e2)) by (apply Z.pow_pos_nonneg; lia).
  rewrite !Z2Pos.id by lia. done.
Qed.

Lemma valid_finite (s : bool) (m : positive) (e : Z) :
  valid_binary (S754_finite s m e) = true →
  e = Z.max (Zpos (digits2_pos m) + e - 53) (-1074) ∧ e ≤ 971.
Proof.
  unfold FloatAxioms.valid_binary, SpecFloat.valid_binary, bounded,
    canonical_mantissa.
  rewrite fexp_eq. change (emax - prec) with 971.
  intros [H1 H2]%andb_prop. apply Z.eqb_eq in H1. apply Z.leb_le in H2. lia.
Qed.

(** *** [x + (100 - x)] is 100 for every double [x] from 0 to 100 *)

Lemma add_sub_100 (X : spec_float) :
  valid_binary X = true → le_100 X →
  SF64add X (SF64sub SF_100 X) = SF_100.
Proof.
  destruct X as [[]| | |[] m e]; try done.
  intros Hvalid [He Hm]. apply valid_finite in Hvalid as [Hcanon _].
  unfold SF_100 at 1. rewrite SFsub_finite.
  replace (Z.min (-46) e) with e by lia.
  replace (e - e) with 0 by lia. rewrite Z.mul_1_r. fold hundred_m.
  set (P := 2 ^ (-46 - e)) in *.
  assert (HP : 0 < P) by (apply Z.pow_pos_nonneg; lia).
  pose proof hundred_m_eq as Hc.
  assert (HMc : 2 ^ (6 - e) ≤ hundred_m * P ∧ hundred_m * P < 2 ^ (7 - e)).
  { replace (6 - e) with (52 + (-46 - e)) by lia.
    replace (7 - e) with (53 + (-46 - e)) by lia.
    rewrite !pow2_split by lia. fold P. rewrite Hc.
    change (2 ^ 53) with (32 * 2 ^ 48). change (2 ^ 52) with (16 * 2 ^ 48).
    assert (1 ≤ 2 ^ 48) by done. nia. }
  assert (0 < 2 ^ (6 - e)) by (apply Z.pow_pos_nonneg; lia).
  destruct (hundred_m * P - Zpos m) as [|pM|pM] eqn:HM; try lia.
  - (* X is 100 itself *)
    cbn [binary_normalize]. unfold SF64add, SFadd.
    assert (Hd : Zpos (digits2_pos m) = 7 - e).
    { apply digits_unique; [lia|].
      replace (7 - e - 1) with (6 - e) by lia. lia. }
    assert (e = -46) by lia. subst e.
    unfold P in *. change (2 ^ (-46 - -46)) with 1 in *.
    assert (Hmm : Zpos m = Zpos hundred_p) by (unfold hundred_m in *; lia).
    by injection Hmm as ->.
  - cbn [binary_normalize]. rewrite bround_shape.
    pose proof (digits_bounds pM) as [HMlo HMhi].
    set (dM := Zpos (digits2_pos pM)) in *.
    assert (HdM : 0 < dM ∧ dM ≤ 7 - e).
    { split; [unfold dM; lia|].
      assert (dM - 1 < 7 - e); [|lia].
      apply pow2_lt_inv; [unfold dM; lia|lia|lia]. }
    rewrite fexp_eq.
    set (E := Z.max (dM + e - 53) (-1074)).
    assert (HE : E ≤ -46 ∧ -1074 ≤ E ∧ dM + e - 53 ≤ E) by (unfold E; lia).
    destruct (Z.leb_spec E e) as [HEe|HEe].
    + (* the difference is exact *)
      assert (Hpe : 0 < 2 ^ (e - E)) by (apply Z.pow_pos_nonneg; lia).
      assert (Hlt : Zpos pM * 2 ^ (e - E) < 2 ^ 53).
      { apply Z.lt_le_trans with (2 ^ dM * 2 ^ (e - E)).
        - apply Z.mul_lt_mono_pos_r; lia.
        - rewrite <- pow2_split by lia. apply Z.pow_le_mono_r; lia. }
      unfold finish.
      destruct (Z.eqb_spec (Zpos pM * 2 ^ (e - E)) 0); [lia|].
      destruct (Z.ltb_spec (Zpos pM * 2 ^ (e - E)) (2 ^ 53)); [|lia].
      destruct (Z.leb_spec E 971); [|lia].
      rewrite SFadd_finite. replace (Z.min e E) with E by lia.
      replace (E - E) with 0 by lia. rewrite Z.mul_1_r.
      rewrite Z2Pos.id by lia.
      apply normalize_to_100 with 0; [lia| |simpl; apply Z.pow_nonneg; lia].
      rewrite Z.add_0_r.
      replace (-46 - E) with (-46 - e + (e - E)) by lia.
      rewrite pow2_split by lia. fold P. nia.
    + (* the difference is rounded to nearest *)
      set (k := E - e) in *.
      assert (Hk : 0 < k ∧ k = dM - 53 ∧ k ≤ -46 - e) by (unfold k, E in *; lia).
      destruct (rounded_nearest (Zpos pM) k ltac:(lia) ltac:(lia)) as [Hnear _].
      pose proof (rounded_bounds (Zpos pM) loc_Exact k ltac:(lia)) as Hb.
      rewrite Z.max_l in Hb by lia.
      set (m2 := rounded (Zpos pM) loc_Exact k) in *.
      assert (Hpk : 0 < 2 ^ k) by (apply Z.pow_pos_nonneg; lia).
      assert (Hm2lo : 2 ^ 52 ≤ m2).
      { eapply Z.le_trans; [|apply Hb].
        apply Z.div_le_lower_bound; [lia|].
        rewrite <- pow2_split by lia.
        replace (k + 52) with (dM - 1) by lia. lia. }
      assert (Hm2hi : m2 ≤ 2 ^ 53).
      { assert (Zpos pM / 2 ^ k < 2 ^ 53); [|lia].
        apply Z.div_lt_upper_bound; [lia|].
        rewrite <- pow2_split by lia.
        replace (k + 53) with dM by lia. lia. }
      assert (HkP : 2 ^ k ≤ P).
      { unfold P. apply Z.pow_le_mono_r; lia. }
      assert (Hsum : binary_normalize prec emax (Zpos m + m2 * 2 ^ k) e false
                     = SF_100).
      { apply normalize_to_100 with (m2 * 2 ^ k - Zpos pM); [lia|fold P; lia|].
        fold P. lia. }
      unfold finish.
      destruct (Z.eqb_spec m2 0); [lia|].
      destruct (Z.ltb_spec m2 (2 ^ 53)).
      * destruct (Z.leb_spec E 971); [|lia].
        rewrite SFadd_finite. replace (Z.min e E) with e by lia.
        replace (e - e) with 0 by lia. rewrite Z.mul_1_r.
        rewrite Z2Pos.id by lia. fold k. exact Hsum.
      * destruct (Z.leb_spec (E + 1) 971); [|lia].
        rewrite SFadd_finite. replace (Z.min e (E + 1)) with e by lia.
        replace (e - e) with 0 by lia. rewrite Z.mul_1_r.
        change (Zpos (Z.to_pos (2 ^ 52))) with (2 ^ 52).
        replace (E + 1 - e) with (1 + k) by (unfold k; lia).
        rewrite pow2_split by lia.
        replace (2 ^ 52 * (2 ^ 1 * 2 ^ k)) with (m2 * 2 ^ k); [exact Hsum|].
        replace m2 with (2 ^ 53) by lia. change (2 ^ 53) with (2 ^ 52 * 2 ^ 1).
        lia.
Qed.

Lemma Prim2SF_float_100 : Prim2SF float_100 = SF_100.
Proof. by vm_compute. Qed.

Lemma Prim2SF_int (n : Z) :
  0 < n < 2 ^ 53 →
  Prim2SF (SF2Prim (int_float n)) = int_float n
  ∧ is_infinity (SF2Prim (int_float n)) = false
  ∧ PrimFloat.eqb (SF2Prim (int_float n)) zero = false.
Proof.
  intros Hn.
  destruct (int_float_spec n Hn) as (m & d & _ & _ & _ & _ & Hf & Hvalid).
  assert (Hprim : Prim2SF (SF2Prim (int_float n)) = int_float n)
    by by apply Prim2SF_SF2Prim.
  split; [done|]. split.
  - unfold is_infinity. rewrite eqb_spec, abs_spec, Hprim, Hf. reflexivity.
  - rewrite eqb_spec, Hprim, Hf. reflexivity.
Qed.

(** On the primitive floats. *)
Lemma percentage_sums_to_100 (p t : Z) :
  0 < p → p ≤ t → t < 2 ^ 53 →
  let x := (float_100 * (SF2Prim (int_float p) / SF2Prim (int_float t)))%float in
  (x + (float_100 - x))%float = float_100.
Proof.
  intros Hp Hpt Ht x.
  destruct (Prim2SF_int p ltac:(lia)) as (Hfp & _ & _).
  destruct (Prim2SF_int t ltac:(lia)) as (Hft & _ & _).
  assert (Hx : le_100 (Prim2SF x)).
  { unfold x. rewrite mul_spec, div_spec, Prim2SF_float_100, Hfp, Hft.
    by apply mul_le_100, div_le_one. }
  apply Prim2SF_inj.
  rewrite add_spec, sub_spec, Prim2SF_float_100.
  apply add_sub_100; [apply Prim2SF_valid|done].
Qed.

(** ** [Status]: percentages *)

Lemma count_range (n : Z) : is_count n → 0 ≤ n < 2 ^ 32.
Proof. unfold is_count, integer_field_max. change (2 ^ 32) with 4294967296. lia. Qed.

(** The conversion of a positive count is exact. *)
Lemma py_float_count (n : Z) :
  0 < n < 2 ^ 53 →
  py_float n = Ok (SF2Prim (int_float n))
  ∧ float_eq_int (SF2Prim (int_float n)) n = true.
Proof.
  intros Hn. destruct (Prim2SF_int n Hn) as (Hprim & Hinf & _).
  unfold py_float. rewrite Hinf. split; [done|].
  unfold float_eq_int. rewrite Hprim.
  destruct (int_float_spec n Hn) as (m & d & Hd & _ & Hm & _ & -> & _).
  cbn [cond_Zopp]. destruct (Z.leb_spec 0 (d - 53)).
  - assert (d = 53) by lia. subst d. change (2 ^ (53 - 53)) with 1 in *.
    apply Z.eqb_eq. lia.
  - apply Z.eqb_eq. rewrite Hm. f_equal. f_equal. lia.
Qed.

Lemma pass_percentage_float (self : Status) :
  0 < tests_pass self → 0 ≤ tests_fail self →
  tests_pass self + tests_fail self < 2 ^ 53 →
  Status.pass_percentage self
  = Ok (PyFloat (float_100
                 * (SF2Prim (int_float (tests_pass self))
                    / SF2Prim (int_float (Status.total_tests self))))).
Proof.
  intros Hp Hf Ht. unfold Status.pass_percentage, Status.total_tests.
  destruct (Z.ltb_spec 0 (tests_pass self)); [|lia].
  destruct (py_float_count (tests_pass self)) as [-> _]; [lia|].
  destruct (py_float_count (tests_pass self + tests_fail self)) as [-> _];
    [lia|].
  destruct (Prim2SF_int (tests_pass self + tests_fail self)) as (_ & _ & Hz);
    [lia|].
  simpl. unfold float_truediv. by rewrite Hz.
Qed.

(** C7, as the specification states it, fails: with one test passed and
    two failed the code returns [100 * (1 / 3)], the quotient rounded before
    it is multiplied, which is not the double [100 / 3] that
    [100 * tests_pass / total_tests] gives. *)
Lemma C7_product_first_counterexample :
  ¬ (∀ self : Status,
       is_count (tests_pass self) → is_count (tests_fail self) →
       Status.pass_percentage self = product_first_percentage self).
Proof.
  intros Hclaim.
  assert (Hcount : ∀ n, 0 ≤ n ≤ 2 → is_count n).
  { intros n Hn. unfold is_count, integer_field_max. lia. }
  specialize (Hclaim (mkStatus 1 2) (Hcount 1 ltac:(lia)) (Hcount 2 ltac:(lia))).
  apply (f_equal (λ r, match r with
                       | Ok (PyFloat f) => Prim2SF f
                       | _ => S754_nan
                       end)) in Hclaim.
  vm_compute in Hclaim. discriminate Hclaim.
Qed.

(** C7. For a status whose counts are counts: total_tests is the sum of
    the two; when no test passed pass_percentage is the integer 0 and
    fail_percentage the integer 100; otherwise pass_percentage is the double
    [100 * (float(tests_pass) / float(total_tests))], both conversions exact
    and the quotient rounded before the product, and fail_percentage is the
    double 100 minus that double.  With 0 passed and 5 failed the
    percentages are 0 and 100; with 3 passed and 1 failed they are 75.0 and
    25.0. *)
Theorem C7_status_percentages (self : Status) :
  is_count (tests_pass self) → is_count (tests_fail self) →
  Status.total_tests self = tests_pass self + tests_fail self
  ∧ (tests_pass self = 0 →
       Status.pass_percentage self = Ok (PyInt 0)
       ∧ Status.fail_percentage self = Ok (PyInt 100))
  ∧ (tests_pass self ≠ 0 →
       ∃ a b,
         py_float (tests_pass self) = Ok a
         ∧ float_eq_int a (tests_pass self) = true
         ∧ py_float (Status.total_tests self) = Ok b
         ∧ float_eq_int b (Status.total_tests self) = true
         ∧ float_truediv a b = Ok (a / b)%float
         ∧ Status.pass_percentage self = Ok (PyFloat (float_100 * (a / b)))
         ∧ Status.fail_percentage self
           = Ok (PyFloat (float_100 - float_100 * (a / b))))
  ∧ Status.pass_percentage (mkStatus 0 5) = Ok (PyInt 0)
  ∧ Status.fail_percentage (mkStatus 0 5) = Ok (PyInt 100)
  ∧ Status.pass_percentage (mkStatus 3 1) = Ok (PyFloat 75)
  ∧ Status.fail_percentage (mkStatus 3 1) = Ok (PyFloat 25).
Proof.
  intros Hp%count_range Hf%count_range.
  assert (H53 : 2 ^ 32 + 2 ^ 32 < 2 ^ 53) by done.
  split; [done|]. split; [|split; [|done]].
  - intros H0. unfold Status.fail_percentage, Status.pass_percentage.
    by rewrite H0.
  - intros Hne.
    destruct (py_float_count (tests_pass self)) as [Ha Ha']; [lia|].
    destruct (py_float_count (Status.total_tests self)) as [Hb Hb'];
      [unfold Status.total_tests; lia|].
    destruct (Prim2SF_int (Status.total_tests self)) as (_ & _ & Hz);
      [unfold Status.total_tests; lia|].
    assert (Hpass : Status.pass_percentage self
                    = Ok (PyFloat (float_100
                           * (SF2Prim (int_float (tests_pass self))
                              / SF2Prim (int_float (Status.total_tests self))))))
      by (apply pass_percentage_float; lia).
    eexists _, _. split_and!; try done.
    + unfold float_truediv. by rewrite Hz.
    + unfold Status.fail_percentage. by rewrite Hpass.
Qed.

Lemma C7_status_percentages_witness :
  Status.total_tests (mkStatus 1 2) = 3
  ∧ Status.pass_percentage (mkStatus 1 2)
    = Ok (PyFloat (100 * (1 / 3))%float)
  ∧ Status.fail_percentage (mkStatus 1 2)
    = Ok (PyFloat (100 - 100 * (1 / 3))%float).
Proof.
  pose proof (C7_status_percentages (mkStatus 1 2)) as H.
  destruct H as (Htotal & _ & Hfloat & _).
  - unfold is_count, integer_field_max. simpl. lia.
  - unfold is_count, integer_field_max. simpl. lia.
  - split; [exact Htotal|].
    destruct Hfloat as (a & b & Ha & _ & Hb & _ & _ & Hpass & Hfail);
      [discriminate|].
    vm_compute in Ha. vm_compute in Hb.
    injection Ha as <-. injection Hb as <-.
    split; [exact Hpass|exact Hfail].
Defined.

(** C10. For a status whose counts are counts, pass_percentage plus
    fail_percentage equals 100 (as Python adds and compares them: integers
    when no test passed, doubles otherwise); with no test at all,
    fail_percentage is 100. *)
Theorem C10_percentages_sum_to_100 (self : Status) :
  is_count (tests_pass self) → is_count (tests_fail self) →
  (∃ p f s,
     Status.pass_percentage self = Ok p
     ∧ Status.fail_percentage self = Ok f
     ∧ py_add p f = Ok s
     ∧ py_eq s (PyInt 100) = true)
  ∧ (tests_pass self = 0 → tests_fail self = 0 →
     Status.fail_percentage self = Ok (PyInt 100)).
Proof.
  intros Hp%count_range Hf%count_range.
  assert (H53 : 2 ^ 32 + 2 ^ 32 < 2 ^ 53) by done.
  split.
  - unfold Status.fail_percentage.
    destruct (Z.eq_dec (tests_pass self) 0) as [H0|Hne].
    + unfold Status.pass_percentage. rewrite H0. simpl.
      by exists (PyInt 0), (PyInt 100), (PyInt 100).
    + rewrite pass_percentage_float by lia.
      eexists _, _, _. split_and!; try done.
      unfold sub_100, py_add, py_eq, Status.total_tests.
      rewrite percentage_sums_to_100 by lia.
      by vm_compute.
  - intros H0 _. unfold Status.fail_percentage, Status.pass_percentage.
    by rewrite H0.
Qed.

Lemma C10_percentages_sum_to_100_witness :
  ∃ p f s,
    Status.pass_percentage (mkStatus 1 2) = Ok p
    ∧ Status.fail_percentage (mkStatus 1 2) = Ok f
    ∧ py_add p f = Ok s
    ∧ py_eq s (PyInt 100) = true.
Proof.
  pose proof (C10_percentages_sum_to_100 (mkStatus 1 2)) as H.
  destruct H as [Hsum _].
  - unfold is_count, integer_field_max. simpl. lia.
  - unfold is_count, integer_field_max. simpl. lia.
  - exact Hsum.
Defined.

(** ** The checkpoint engine, end to end

    At [t_now] only build A is complete: [create] makes a first checkpoint on
    A.  Two hours later B is complete too: [create] makes a second checkpoint
    on B, linked to the first, whose builds are B alone. *)
Example create_end_to_end :
  let (first, db1) := ProjectStatus.create t_now myproject db_AB in
  let (second, db2) :=
    ProjectStatus.create (t_now + 120 * minute) myproject db1 in
  first = Some (mkProjectStatus 1 (Some build_A) None t_now)
  ∧ second = Some (mkProjectStatus 2 (Some build_B) first
                     (t_now + 120 * minute))
  ∧ (ProjectStatus.builds db2 <$> second) = Some (Ok [build_B]).
Proof. by vm_compute. Qed.

(** * Further properties of the models *)

(** ** [re.sub] and [Build.save], further *)

Lemma rc_at_get (s : string) (i : nat) :
  rc_at s i = true
  ↔ String.get i s = Some "-"%char
    ∧ String.get (S i) s = Some "r"%char
    ∧ String.get (S (S i)) s = Some "c"%char.
Proof.
  revert s. induction i as [|i IH]; intros s.
  - destruct s as [|c1 [|c2 [|c3 rest]]].
    + split; [done|]. by intros [? _].
    + unfold rc_at. simpl. destruct (Ascii.eqb c1 "-"); split; try done;
        by intros (_ & ? & _).
    + unfold rc_at. simpl.
      destruct (Ascii.eqb c1 "-"), (Ascii.eqb c2 "r"); split; try done;
        by intros (_ & _ & ?).
    + rewrite rc_at_0. simpl.
      rewrite !andb_true_iff, !Ascii.eqb_eq.
      split; [intros [[-> ->] ->]; done|].
      by intros ([= ->] & [= ->] & [= ->]).
  - destruct s as [|c s].
    + split; [done|]. by intros [? _].
    + rewrite rc_at_S, IH. done.
Qed.

Lemma re_sub_rc_no_rc (s : string) (i : nat) : rc_at (re_sub_rc s) i = false.
Proof.
  destruct (rc_at (re_sub_rc s) i) eqn:Hrc; [exfalso|done].
  apply rc_at_get in Hrc as (H0 & H1 & H2).
  pose proof (re_sub_rc_rewritten s) as Hrw.
  rewrite (Hrw i) in H0. rewrite (Hrw (S i)) in H1.
  rewrite (Hrw (S (S i))) in H2.
  destruct (rc_at s i) eqn:Hi; [done|].
  destruct (rc_at s (S i)); [done|].
  destruct (rc_at s (S (S i))); [done|].
  assert (rc_at s i = true) by by apply rc_at_get.
  congruence.
Qed.

Lemma re_sub_rc_fixed (s : string) :
  (∀ i, rc_at s i = false) → re_sub_rc s = s.
Proof.
  intros Hno. apply String.get_correct. intros i.
  rewrite (re_sub_rc_rewritten s i). by rewrite Hno.
Qed.

Lemma re_sub_rc_unfold c1 c2 c3 rest :
  re_sub_rc (String c1 (String c2 (String c3 rest)))
  = if Ascii.eqb c1 "-" && Ascii.eqb c2 "r" && Ascii.eqb c3 "c"
    then String "~" (String "r" (String "c" (re_sub_rc rest)))
    else String c1 (re_sub_rc (String c2 (String c3 rest))).
Proof. reflexivity. Qed.

Lemma re_sub_rc_length_upto (n : nat) :
  ∀ s, (String.length s ≤ n)%nat →
       String.length (re_sub_rc s) = String.length s.
Proof.
  induction n as [|n IH]; intros s Hlen.
  - destruct s; simpl in *; [done|lia].
  - destruct s as [|c1 [|c2 [|c3 rest]]]; try done.
    simpl in Hlen. rewrite re_sub_rc_unfold.
    destruct (Ascii.eqb c1 "-" && Ascii.eqb c2 "r" && Ascii.eqb c3 "c").
    + cbn [String.length]. rewrite IH by lia. done.
    + cbn [String.length].
      rewrite (IH (String c2 (String c3 rest))) by (simpl; lia). done.
Qed.

(** X1. The text [re.sub('-rc', '~rc', s)] returns has the length of [s] and
    no occurrence of [-rc] left; a text without [-rc] is returned as it is,
    so rewriting twice is rewriting once. *)
Theorem re_sub_rc_properties (s : string) :
  String.length (re_sub_rc s) = String.length s
  ∧ (∀ i, rc_at (re_sub_rc s) i = false)
  ∧ ((∀ i, rc_at s i = false) → re_sub_rc s = s)
  ∧ re_sub_rc (re_sub_rc s) = re_sub_rc s.
Proof.
  split_and!.
  - by apply (re_sub_rc_length_upto (String.length s)).
  - apply re_sub_rc_no_rc.
  - apply re_sub_rc_fixed.
  - apply re_sub_rc_fixed, re_sub_rc_no_rc.
Qed.

Lemma truthy_re_sub (o : option string) : truthy (re_sub_rc <$> o) = truthy o.
Proof.
  destruct o as [s|]; [|done]. simpl.
  destruct s as [|c1 [|c2 [|c3 rest]]]; try done.
  rewrite re_sub_rc_unfold.
  by destruct (Ascii.eqb c1 "-" && Ascii.eqb c2 "r" && Ascii.eqb c3 "c").
Qed.

(** What [save] leaves in the instance, case by case. *)
Lemma save_cases (now : datetime) (self : BuildInstance) :
  Build.save now self
  = mkBuildInstance (inst_project self)
      (if truthy (inst_name self) then inst_name self
       else if truthy (inst_version self) then inst_version self
            else inst_name self)
      (if truthy (inst_name self)
       then (if truthy (inst_version self) then inst_version self
             else re_sub_rc <$> inst_name self)
       else if truthy (inst_version self)
            then re_sub_rc <$> inst_version self
            else inst_version self)
      (Some (default now (inst_datetime self))).
Proof.
  destruct self as [proj name version dt]. unfold Build.save. simpl.
  destruct (truthy name) eqn:Hn, (truthy version) eqn:Hv, dt; simpl;
    rewrite ?Hn, ?Hv; simpl; rewrite ?Hn, ?Hv; simpl; try done.
Qed.

(** X2. Saving a Build with a version and no name: the name becomes the
    version as given, and the version becomes that text with every [-rc]
    rewritten to [~rc]. *)
Theorem save_name_from_version (now : datetime) (self : BuildInstance) :
  truthy (inst_version self) = true → truthy (inst_name self) = false →
  inst_name (Build.save now self) = inst_version self
  ∧ inst_version (Build.save now self) = re_sub_rc <$> inst_version self.
Proof. intros Hv Hn. rewrite save_cases, Hv, Hn. done. Qed.

Lemma save_name_from_version_witness :
  let b := Build.save 0 (mkBuildInstance myproject None (Some "1.0-rc1"%string)
                           None) in
  inst_name b = Some "1.0-rc1"%string ∧ inst_version b = Some "1.0~rc1"%string.
Proof.
  exact (save_name_from_version 0
           (mkBuildInstance myproject None (Some "1.0-rc1"%string) None)
           eq_refl eq_refl).
Defined.

(** X3. Saving is stable: saving again what [save] left, at any later time,
    changes nothing. *)
Theorem save_idempotent (now now' : datetime) (self : BuildInstance) :
  Build.save now' (Build.save now self) = Build.save now self.
Proof.
  rewrite (save_cases now' (Build.save now self)), (save_cases now self).
  destruct self as [proj name version dt]. simpl.
  destruct (truthy name) eqn:Hn, (truthy version) eqn:Hv; simpl;
    rewrite ?truthy_re_sub, ?Hn, ?Hv; done.
Qed.

(** X4. After [save] the datetime is set, to the one given or else to the
    time of saving; name and version are both in place as soon as one of
    them was supplied, and both still missing otherwise; a version that
    [save] derived holds no [-rc]. *)
Theorem save_completes (now : datetime) (self : BuildInstance) :
  let saved := Build.save now self in
  inst_datetime saved = Some (default now (inst_datetime self))
  ∧ inst_project saved = inst_project self
  ∧ truthy (inst_name saved)
    = truthy (inst_name self) || truthy (inst_version self)
  ∧ truthy (inst_version saved)
    = truthy (inst_name self) || truthy (inst_version self)
  ∧ (truthy (inst_name self) && truthy (inst_version self) = false →
     ∀ v i, inst_version saved = Some v → truthy (Some v) = true →
            rc_at v i = false).
Proof.
  intros saved. subst saved. rewrite save_cases.
  destruct self as [proj name version dt]. simpl.
  destruct (truthy name) eqn:Hn, (truthy version) eqn:Hv; simpl;
    rewrite ?truthy_re_sub, ?Hn, ?Hv; split_and!; try done.
  - intros _ v i Hsome _. destruct name as [n|]; [|done].
    injection Hsome as <-. apply re_sub_rc_no_rc.
  - intros _ v i Hsome _. destruct version as [n|]; [|done].
    injection Hsome as <-. apply re_sub_rc_no_rc.
  - intros _ v i Hsome Ht. rewrite Hsome in Hv. simpl in *. congruence.
Qed.

Lemma save_completes_witness :
  let saved := Build.save 7 (mkBuildInstance myproject (Some "2.0-rc-rc1"%string)
                               None None) in
  inst_datetime saved = Some 7
  ∧ ∀ i, rc_at "2.0~rc~rc1" i = false.
Proof.
  pose proof (save_completes 7
    (mkBuildInstance myproject (Some "2.0-rc-rc1"%string) None None))
    as (Hdt & _ & _ & _ & Hrc).
  split; [exact Hdt|].
  intros i. exact (Hrc eq_refl "2.0~rc~rc1"%string i eq_refl eq_refl).
Defined.

(** ** [dict_intersection] and [Build.metadata], further *)

Section MetadataMore.
Context {V : Type} `{EqDecision V}.
Implicit Types d m : gmap string V.

(** X5. [dict_intersection d1 d2] holds exactly the pairs that are in both
    mappings; it does not depend on the order of its arguments or on how
    three mappings are grouped, and a mapping intersected with itself is
    unchanged. *)
Theorem dict_intersection_algebra d1 d2 d3 :
  (∀ k v, dict_intersection d1 d2 !! k = Some v
          ↔ d1 !! k = Some v ∧ d2 !! k = Some v)
  ∧ dict_intersection d1 d2 ⊆ d1
  ∧ dict_intersection d1 d2 ⊆ d2
  ∧ dict_intersection d1 d2 = dict_intersection d2 d1
  ∧ dict_intersection (dict_intersection d1 d2) d3
    = dict_intersection d1 (dict_intersection d2 d3)
  ∧ dict_intersection d1 d1 = d1.
Proof.
  split_and!.
  - intros k v. apply dict_intersection_lookup.
  - apply map_subseteq_spec. intros k v.
    rewrite dict_intersection_lookup. tauto.
  - apply map_subseteq_spec. intros k v.
    rewrite dict_intersection_lookup. tauto.
  - apply dict_intersection_comm.
  - apply map_eq. intros k. apply option_eq. intros v.
    rewrite !dict_intersection_lookup. tauto.
  - apply map_eq. intros k. apply option_eq. intros v.
    rewrite dict_intersection_lookup. tauto.
Qed.

Lemma metadata_step_lookup d m k v :
  metadata_step d m !! k = Some v
  ↔ (d = ∅ ∧ m !! k = Some v) ∨ (d !! k = Some v ∧ m !! k = Some v).
Proof.
  unfold metadata_step. case_decide as Hd.
  - rewrite dict_intersection_lookup. split; [tauto|].
    intros [[-> _]|]; [done|tauto].
  - assert (d = ∅) as -> by (by destruct (decide (d = ∅)); [|exfalso; auto]).
    rewrite lookup_empty. split; [tauto|]. intros [[_ ?]|[? _]]; done.
Qed.

Lemma metadata_fold_snoc (ms : list (gmap string V)) m :
  metadata_fold (ms ++ [m]) = metadata_step (metadata_fold ms) m.
Proof. unfold metadata_fold. by rewrite foldl_app. Qed.

(** The loop over at least one mapping: between what is common to all and
    the last one. *)
Lemma metadata_fold_between (ms : list (gmap string V)) m :
  (∀ k v, (∀ m', m' ∈ ms ++ [m] → m' !! k = Some v) →
          metadata_fold (ms ++ [m]) !! k = Some v)
  ∧ metadata_fold (ms ++ [m]) ⊆ m.
Proof.
  split.
  - intros k v. revert m.
    induction ms as [|m0 ms IH] using rev_ind; intros m Hall.
    + unfold metadata_fold. simpl. apply metadata_step_lookup. left.
      split; [done|]. apply Hall. by apply list_elem_of_singleton.
    + rewrite metadata_fold_snoc. apply metadata_step_lookup. right. split.
      * apply IH. intros m' Hm'. apply Hall. apply elem_of_app; by left.
      * apply Hall. apply elem_of_app; right; by apply list_elem_of_singleton.
  - rewrite metadata_fold_snoc. apply map_subseteq_spec. intros k v.
    rewrite metadata_step_lookup. tauto.
Qed.

(** The loop is the intersection as long as it never restarts. *)
Lemma metadata_fold_common (ms : list (gmap string V)) :
  ms ≠ [] →
  (∀ n : nat, (0 < n < length ms)%nat → metadata_fold (take n ms) ≠ ∅) →
  ∀ k v, metadata_fold ms !! k = Some v ↔ ∀ m, m ∈ ms → m !! k = Some v.
Proof.
  induction ms as [|m ms IH] using rev_ind; [done|].
  intros _ Hnever k v. rewrite metadata_fold_snoc.
  destruct ms as [|m0 ms'] eqn:Hms.
  - unfold metadata_fold. simpl. rewrite metadata_step_lookup, lookup_empty.
    split.
    + intros [[_ ?]|[? _]]; [|done]. intros m' ->%list_elem_of_singleton. done.
    + intros Hall. left. split; [done|]. apply Hall. by apply list_elem_of_singleton.
  - rewrite <- Hms in *.
    assert (Hne : metadata_fold ms ≠ ∅).
    { specialize (Hnever (length ms)).
      rewrite take_app_length in Hnever. apply Hnever.
      rewrite length_app. simpl. subst ms. simpl. lia. }
    rewrite metadata_step_lookup, IH.
    + split.
      * intros [[? _]|[Hms' Hm]]; [done|].
        intros m' [?| ->%list_elem_of_singleton]%elem_of_app; auto.
      * intros Hall. right. split.
        -- intros m' Hm'. apply Hall. apply elem_of_app; by left.
        -- apply Hall. apply elem_of_app; right; by apply list_elem_of_singleton.
    + subst ms. done.
    + intros n Hn. specialize (Hnever n).
      rewrite take_app_le in Hnever by lia. apply Hnever.
      rewrite length_app. simpl. lia.
Qed.

End MetadataMore.

Section AnyValueFacts.
Context {V O : Type} `{EqDecision V}.
Variable json_loads : string → result (json_value V O).
Variable other_truthy : O → bool.
Variable other_intersection :
  json_value V O → json_value V O → result (json_value V O).

(** While the runs decode to objects the loop is the fold over their
    mappings, whatever the two parameters are. *)
Lemma metadata_loop_value_objects (runs : list TestRun)
    (ms : list (gmap string V)) (d : gmap string V) :
  Forall2 (λ run m, TestRun_metadata_value json_loads run = Ok (JObject m))
    runs ms →
  metadata_loop_value json_loads other_truthy other_intersection runs
    (JObject d)
  = Ok (JObject (foldl metadata_step d ms)).
Proof.
  intros Hdec. revert d.
  induction Hdec as [|run m runs ms Hrun _ IH]; intros d; [done|].
  cbn [metadata_loop_value value_truthy foldl]. rewrite Hrun.
  unfold metadata_step at 2.
  destruct (decide (d ≠ ∅)) as [Hd|Hd].
  - rewrite bool_decide_eq_true_2 by done. simpl. apply IH.
  - rewrite bool_decide_eq_false_2 by done. simpl. apply IH.
Qed.

Lemma metadata_loop_value_first_error (pre post : list TestRun)
    (run : TestRun) (e : exn) (d : gmap string V) :
  Forall (λ r, ∃ m, TestRun_metadata_value json_loads r = Ok (JObject m))
    pre →
  TestRun_metadata_value json_loads run = Raise e →
  metadata_loop_value json_loads other_truthy other_intersection
    (pre ++ run :: post) (JObject d)
  = Raise e.
Proof.
  intros Hpre Hrun. revert d.
  induction Hpre as [|r pre [m Hr] _ IH]; intros d;
    cbn [app metadata_loop_value value_truthy].
  - rewrite Hrun. by destruct (bool_decide (d ≠ ∅)).
  - rewrite Hr. destruct (bool_decide (d ≠ ∅)); simpl; apply IH.
Qed.

(** On a decoder that only returns objects, the loop over every value is
    the loop over mappings. *)
Lemma Build_metadata_value_mappings
    (loads : string → result (gmap string V)) (db : Database)
    (build : Build) :
  Build_metadata_value
    (λ s, match loads s with Ok m => Ok (JObject m) | Raise e => Raise e end)
    other_truthy other_intersection db build
  = match Build.metadata loads db build with
    | Ok m => Ok (JObject m)
    | Raise e => Raise e
    end.
Proof.
  unfold Build_metadata_value, Build.metadata.
  generalize (∅ : gmap string V).
  induction (Build.test_runs db build) as [|run runs IH]; intros d; [done|].
  cbn [metadata_loop_value metadata_loop value_truthy].
  unfold TestRun_metadata_value, TestRun.metadata, metadata_step.
  destruct (truthy (metadata_file run)).
  - destruct (loads (default ""%string (metadata_file run))) as [m|e];
      simpl.
    + destruct (decide (d ≠ ∅)).
      * rewrite bool_decide_eq_true_2 by done. simpl. apply IH.
      * rewrite bool_decide_eq_false_2 by done. simpl. apply IH.
    + by destruct (bool_decide (d ≠ ∅)).
  - simpl. destruct (decide (d ≠ ∅)).
    + rewrite bool_decide_eq_true_2 by done. simpl. apply IH.
    + rewrite bool_decide_eq_false_2 by done. simpl. apply IH.
Qed.

(** X6. For a build with at least one run, the metadata of every run being
    a JSON object (or absent), [Build.metadata] returns an object that holds
    every pair found in the metadata of all the runs, and nothing that is
    not in the metadata of the last run.  Values are compared by [==], taken
    as equality. *)
Theorem Build_metadata_bounds (db : Database) (build : Build)
    (ms : list (gmap string V)) (m : gmap string V) :
  Forall2 (λ run m, TestRun_metadata_value json_loads run = Ok (JObject m))
    (Build.test_runs db build) (ms ++ [m]) →
  ∃ result,
    Build_metadata_value json_loads other_truthy other_intersection db build
    = Ok (JObject result)
    ∧ (∀ k v, (∀ m', m' ∈ ms ++ [m] → m' !! k = Some v) →
              result !! k = Some v)
    ∧ result ⊆ m.
Proof.
  intros Hdec. exists (metadata_fold (ms ++ [m])).
  split; [by apply metadata_loop_value_objects|].
  apply metadata_fold_between.
Qed.

(** X7. The metadata of every run being a JSON object (or absent), and the
    object gathered so far never empty when the next run is looked at,
    [Build.metadata] returns exactly the pairs common to the metadata of all
    the runs of the build.  Values are compared by [==], taken as
    equality. *)
Theorem Build_metadata_exact (db : Database) (build : Build)
    (ms : list (gmap string V)) :
  Forall2 (λ run m, TestRun_metadata_value json_loads run = Ok (JObject m))
    (Build.test_runs db build) ms →
  ms ≠ [] →
  (∀ n : nat, (0 < n < length ms)%nat → metadata_fold (take n ms) ≠ ∅) →
  ∃ result,
    Build_metadata_value json_loads other_truthy other_intersection db build
    = Ok (JObject result)
    ∧ ∀ k v, result !! k = Some v ↔ ∀ m, m ∈ ms → m !! k = Some v.
Proof.
  intros Hdec Hne Hnever. exists (metadata_fold ms).
  split; [by apply metadata_loop_value_objects|].
  by apply metadata_fold_common.
Qed.

(** X8. When the metadata of a run does not decode, and the metadata of
    every run before it is a JSON object (or absent), [Build.metadata]
    raises the decoder's error of that run; the runs after it are not looked
    at. *)
Theorem Build_metadata_first_error (db : Database) (build : Build)
    (pre post : list TestRun) (run : TestRun) (e : exn) :
  Build.test_runs db build = pre ++ run :: post →
  Forall (λ r, ∃ m, TestRun_metadata_value json_loads r = Ok (JObject m))
    pre →
  TestRun_metadata_value json_loads run = Raise e →
  Build_metadata_value json_loads other_truthy other_intersection db build
  = Raise e.
Proof.
  intros Hruns Hpre Hrun. unfold Build_metadata_value. rewrite Hruns.
  by apply metadata_loop_value_first_error.
Qed.

End AnyValueFacts.

(** A run whose metadata is [null] is outside all three: alone it makes the
    metadata of the build [None]; after a run with an object it makes
    [dict_intersection] raise, before the malformed run is reached. *)
Example Build_metadata_value_null :
  Build_metadata_value decode_four none_truthy none_intersection
    (db_runs [run_with 11 "null"]) (build_at 1)
  = Ok (JOther ())
  ∧ Build_metadata_value decode_four none_truthy none_intersection
      (db_runs [run_with 11 "first"; run_with 12 "null"; run_with 13 "{"])
      (build_at 1)
    = Raise TypeError.
Proof. split; reflexivity. Qed.

Lemma Build_metadata_bounds_witness :
  ∃ result,
    Build_metadata_value decode_four none_truthy none_intersection
      (db_runs [run_with 11 "first"; run_of 1; run_with 12 "second"])
      (build_at 1)
    = Ok (JObject result)
    ∧ (∀ k v, (∀ m', m' ∈ [foo_bar_baz_qux; ∅] ++ [foo_bar_baz_fox] →
                     m' !! k = Some v) →
              result !! k = Some v)
    ∧ result ⊆ foo_bar_baz_fox.
Proof.
  apply (Build_metadata_bounds decode_four none_truthy none_intersection
           (db_runs [run_with 11 "first"; run_of 1; run_with 12 "second"])
           (build_at 1) [foo_bar_baz_qux; ∅] foo_bar_baz_fox).
  repeat constructor.
Defined.

Lemma Build_metadata_exact_witness :
  ∃ result,
    Build_metadata_value decode_four none_truthy none_intersection
      (db_runs [run_with 11 "first"; run_with 12 "second"]) (build_at 1)
    = Ok (JObject result)
    ∧ ∀ k v, result !! k = Some v
             ↔ ∀ m, m ∈ [foo_bar_baz_qux; foo_bar_baz_fox] → m !! k = Some v.
Proof.
  apply (Build_metadata_exact decode_four none_truthy none_intersection
           (db_runs [run_with 11 "first"; run_with 12 "second"])
           (build_at 1) [foo_bar_baz_qux; foo_bar_baz_fox]).
  - repeat constructor.
  - discriminate.
  - intros [|[|n]] [Hn1 Hn2].
    + inversion Hn1.
    + intros Heq. apply (f_equal (lookup "foo"%string)) in Heq.
      vm_compute in Heq. discriminate Heq.
    + cbn [length] in Hn2. lia.
Defined.

Lemma Build_metadata_first_error_witness :
  Build_metadata_value decode_four none_truthy none_intersection
    (db_runs [run_with 11 "first"; run_of 1; run_with 12 "{";
              run_with 13 "null"])
    (build_at 1)
  = Raise ValueError.
Proof.
  apply (Build_metadata_first_error decode_four none_truthy
           none_intersection _ _
           [run_with 11 "first"; run_of 1] [run_with 13 "null"]
           (run_with 12 "{") ValueError).
  - reflexivity.
  - repeat constructor.
    + by exists foo_bar_baz_qux.
    + by exists ∅.
  - reflexivity.
Defined.

(** ** The failures of [Build.test_summary], as a whole *)

Lemma failures_append_concat e t (failures : list (string * list Test)) :
  concat (Build.failures_append e t failures).*2 ≡ₚ concat failures.*2 ++ [t].
Proof.
  induction failures as [|[k l] failures IH]; [done|].
  cbn [Build.failures_append]. destruct (String.eqb k e).
  - rewrite !fmap_cons. cbn [snd concat]. rewrite <- !app_assoc.
    f_equiv. apply Permutation_app_comm.
  - rewrite !fmap_cons. cbn [snd concat]. by rewrite IH, app_assoc.
Qed.

Lemma failures_append_entries e t (failures : list (string * list Test)) :
  test_result t = Some false → test_env t = e →
  Forall (λ kl, kl.2 ≠ []
                ∧ Forall (λ t, test_result t = Some false ∧ test_env t = kl.1)
                         kl.2) failures →
  Forall (λ kl, kl.2 ≠ []
                ∧ Forall (λ t, test_result t = Some false ∧ test_env t = kl.1)
                         kl.2) (Build.failures_append e t failures).
Proof.
  intros Hres Henv. induction 1 as [|[k l] failures [Hne Hl] Hfs IH].
  - repeat constructor; done.
  - cbn [Build.failures_append].
    destruct (String.eqb_spec k e) as [->|Hke].
    + constructor; [|done]. simpl in *. split.
      * by destruct l.
      * apply Forall_app. split; [done|]. by repeat constructor.
    + by constructor.
Qed.

Lemma record_failure_entries failures0 (l : list Test) :
  NoDup failures0.*1 →
  Forall (λ kl, kl.2 ≠ []
                ∧ Forall (λ t, test_result t = Some false ∧ test_env t = kl.1)
                         kl.2) failures0 →
  let failures := foldl record_failure failures0 l in
  NoDup failures.*1
  ∧ Forall (λ kl, kl.2 ≠ []
                  ∧ Forall (λ t, test_result t = Some false ∧ test_env t = kl.1)
                           kl.2) failures
  ∧ concat failures.*2
    ≡ₚ concat failures0.*2 ++ filter (λ t, test_result t = Some false) l.
Proof.
  revert failures0.
  induction l as [|t l IH]; intros failures0 Hnodup Hentries; simpl.
  - by rewrite app_nil_r.
  - rewrite filter_cons.
    destruct (test_result t) as [[]|] eqn:Hres.
    + replace (record_failure failures0 t) with failures0
        by (unfold record_failure; by rewrite Hres).
      rewrite decide_False by done. by apply IH.
    + replace (record_failure failures0 t)
        with (Build.failures_append (test_env t) t failures0)
        by (unfold record_failure; by rewrite Hres).
      rewrite decide_True by done.
      destruct (IH (Build.failures_append (test_env t) t failures0))
        as (H1 & H2 & H3).
      * rewrite failures_keys_append. case_decide; [done|].
        apply NoDup_app. split_and!; [done| |apply NoDup_singleton].
        intros x Hx ->%list_elem_of_singleton. done.
      * by apply failures_append_entries.
      * split_and!; [done|done|].
        rewrite H3, failures_append_concat, <- app_assoc. done.
    + replace (record_failure failures0 t) with failures0
        by (unfold record_failure; by rewrite Hres).
      rewrite decide_False by done. by apply IH.
Qed.

Lemma failures_get_elem_of env l (failures : list (string * list Test)) :
  failures_get env failures = Some l → (env, l) ∈ failures.
Proof.
  induction failures as [|[k l0] failures IH]; simpl; [done|].
  destruct (String.eqb_spec k env) as [->|Hk].
  - intros [= ->]. by left.
  - intros Hget. right. by apply IH.
Qed.

(** X9. In the summary of a build the failures have one entry per environment
    slug and no entry has an empty list; every test listed under a slug is a
    row of the tests table on a run of the build, with result false and that
    environment, and every such row is listed under its slug; with distinct
    primary keys of runs the lists together are a rearrangement of those
    rows, each once; they hold as many tests as [fail] counts. *)
Theorem test_summary_failures (db : Database) (build : Build) :
  let summary := Build.test_summary db build in
  let failures := Build.summary_failures summary in
  NoDup failures.*1
  ∧ (∀ env l, (env, l) ∈ failures →
       l ≠ []
       ∧ ∀ t, t ∈ l →
              test_result t = Some false ∧ test_env t = env
              ∧ t ∈ tests_table db ∧ test_of_build db build t)
  ∧ (∀ t, t ∈ tests_table db → test_of_build db build t →
          test_result t = Some false →
          ∃ l, (test_env t, l) ∈ failures ∧ t ∈ l)
  ∧ (NoDup (test_run_id <$> test_runs_table db) →
       concat failures.*2
       ≡ₚ filter (λ t, test_result t = Some false) (tests_of_build db build))
  ∧ Z.of_nat (length (concat failures.*2)) = Build.summary_fail summary.
Proof.
  intros summary failures. subst failures summary.
  rewrite test_summary_all_tests.
  destruct (foldl_count_test (Build.mkSummary 0 0 0 0 []) (all_tests db build))
    as (_ & _ & Hf & _ & Hfs).
  simpl in Hf, Hfs. rewrite Hf, Hfs.
  destruct (record_failure_entries [] (all_tests db build))
    as (H1 & H2 & H3); [constructor|constructor|].
  simpl in H3. split_and!.
  - done.
  - intros env l Hin. rewrite Forall_forall in H2.
    destruct (H2 _ Hin) as [Hne Hl]. split; [done|].
    intros t Ht. rewrite Forall_forall in Hl.
    destruct (Hl t Ht) as [Hres Henv]. split_and!; [done|done| |].
    + assert (Hconcat : t ∈ concat (foldl record_failure []
                                     (all_tests db build)).*2).
      { apply elem_of_concat. exists l. split; [done|].
        by apply (list_elem_of_fmap_2 snd _ (env, l)). }
      rewrite H3 in Hconcat.
      apply list_elem_of_filter in Hconcat as [_ Hall].
      by apply elem_of_all_tests in Hall as [? _].
    + assert (Hconcat : t ∈ concat (foldl record_failure []
                                     (all_tests db build)).*2).
      { apply elem_of_concat. exists l. split; [done|].
        by apply (list_elem_of_fmap_2 snd _ (env, l)). }
      rewrite H3 in Hconcat.
      apply list_elem_of_filter in Hconcat as [_ Hall].
      by apply elem_of_all_tests in Hall as [_ ?].
  - intros t Ht Hbuild Hres.
    assert (Hin : t ∈ failed_in (test_env t) (all_tests db build)).
    { apply list_elem_of_filter. split; [done|].
      by apply elem_of_all_tests. }
    pose proof (record_failure_get (test_env t) [] (all_tests db build))
      as Hget.
    simpl in Hget.
    destruct (failed_in (test_env t) (all_tests db build)) as [|t0 fl] eqn:Hfl;
      [by apply elem_of_nil in Hin|].
    exists (t0 :: fl). split; [|done]. by apply failures_get_elem_of.
  - intros Hkeys. rewrite H3. by rewrite (all_tests_of_build db build Hkeys).
  - rewrite H3. unfold count_result. lia.
Qed.

Lemma test_summary_failures_witness :
  let summary := Build.test_summary db_two_runs (build_at 1) in
  let failures := Build.summary_failures summary in
  concat failures.*2 ≡ₚ [boot_arm; net_x86]
  ∧ Z.of_nat (length (concat failures.*2)) = 2
  ∧ ∃ l, ("arm"%string, l) ∈ failures ∧ boot_arm ∈ l.
Proof.
  pose proof (test_summary_failures db_two_runs (build_at 1))
    as (_ & _ & Hlisted & Htable & Hfail).
  split; [|split].
  - refine (Htable _). compute_done.
  - exact Hfail.
  - refine (Hlisted boot_arm _ _ eq_refl).
    + unfold db_two_runs. simpl. repeat constructor.
    + compute_done.
Defined.

(** ** [Test.history], further *)

(** X10. The history of a test, read for the first time: [count] is at most
    the number of prior tests and is zero exactly when [since] is absent;
    [since] is a prior test with the test's own result, [last_different] a
    prior test with another result, from a build not later than that of
    [since]; with no [last_different] every prior test has the test's own
    result and [count] is their number. *)
Theorem history_facts (db : Database) (self : Test) :
  let h := (Test.history db self None).1 in
  let prior := filter (prior_to self) (tests_table db) in
  0 ≤ count h ≤ Z.of_nat (length prior)
  ∧ (count h = 0 ↔ since h = None)
  ∧ (∀ t, since h = Some t → t ∈ prior ∧ test_result t = test_result self)
  ∧ (∀ d, last_different h = Some d →
       d ∈ prior ∧ test_result d ≠ test_result self
       ∧ count h < Z.of_nat (length prior))
  ∧ (∀ t d, since h = Some t → last_different h = Some d →
       test_datetime d ≤ test_datetime t)
  ∧ (last_different h = None →
       count h = Z.of_nat (length prior)
       ∧ Forall (λ t, test_result t = test_result self) prior).
Proof.
  intros h prior.
  destruct (previous_tests_spec db self) as [Hperm Hsorted].
  fold prior in Hperm.
  set (qs := Test.previous_tests db self) in *.
  destruct (streak_split (test_result self) qs) as (Hsplit & Hsame & Hdiff).
  set (same := streak (test_result self) qs) in *.
  set (rest := after_streak (test_result self) qs) in *.
  assert (Hh : h = mkHistory (last same) (Z.of_nat (length same)) (head rest)).
  { subst h. simpl. fold qs. rewrite walk_streak. fold same rest.
    f_equal. by destruct (last same). }
  assert (Hlen : length prior = (length same + length rest)%nat).
  { by rewrite <- Hperm, Hsplit, length_app. }
  rewrite Hh. simpl. clear Hh h. split_and!.
  - lia.
  - lia.
  - split.
    + intros Hz. destruct same; [done|simpl in Hz; lia].
    + intros Hl. apply last_None in Hl. by rewrite Hl.
  - intros t Ht. apply last_Some_elem_of in Ht. split.
    + rewrite <- Hperm, Hsplit. apply elem_of_app. by left.
    + rewrite Forall_forall in Hsame. by apply Hsame.
  - intros d Hd. split_and!.
    + rewrite <- Hperm, Hsplit. apply elem_of_app. right.
      by apply head_Some_elem_of.
    + by apply Hdiff.
    + destruct rest; [done|]. simpl in Hlen. lia.
  - intros t d Ht Hd. apply last_Some_elem_of in Ht.
    apply head_Some_elem_of in Hd.
    rewrite Hsplit in Hsorted.
    apply StronglySorted_app in Hsorted as (Hcross & _ & _).
    by apply Hcross.
  - intros Hnone. apply head_None in Hnone. split.
    + rewrite Hlen, Hnone. simpl. lia.
    + eapply Forall_forall. intros t Ht. rewrite <- Hperm, Hsplit in Ht.
      rewrite Hnone, app_nil_r in Ht.
      rewrite Forall_forall in Hsame. by apply Hsame.
Qed.

(** ** [ProjectStatus.create], further *)

Lemma candidate_builds_table now project db db' :
  builds_table db' = builds_table db →
  ProjectStatus.candidate now project db'
  = ProjectStatus.candidate now project db.
Proof.
  intros Hb. unfold ProjectStatus.candidate, project_builds. by rewrite Hb.
Qed.

Lemma latest_project_statuses project db db' :
  project_statuses db' = project_statuses db →
  ProjectStatus.latest project db' = ProjectStatus.latest project db.
Proof.
  intros Hps. unfold ProjectStatus.latest, ProjectStatus.of_project.
  by rewrite Hps.
Qed.

Lemma create_Some now project db row :
  (ProjectStatus.create now project db).1 = Some row →
  ∃ b, ProjectStatus.candidate now project db = Some b
       ∧ differs_from (ProjectStatus.latest project db) b
       ∧ row = mkProjectStatus (ProjectStatus.next_pk db) (Some b)
                 (ProjectStatus.latest project db) now
       ∧ (ProjectStatus.create now project db).2
         = mkDatabase (builds_table db) (test_runs_table db) (tests_table db)
             (project_statuses db ++ [row]).
Proof.
  rewrite create_unfold.
  destruct (ProjectStatus.candidate now project db) as [b|]; [|done].
  destruct (decide (differs_from (ProjectStatus.latest project db) b));
    [|done].
  simpl. intros [= <-]. by exists b.
Qed.

(** X11. The checkpoint made by [create] is stamped with the time of the call,
    gets a primary key larger than every key in use, is on a build of the
    project that is in the builds table and older than the completion
    window, and is the project's latest checkpoint afterwards. *)
Theorem create_new_row (now : datetime) (project : Project) (db : Database)
    (row : ProjectStatus) :
  (ProjectStatus.create now project db).1 = Some row →
  let db' := (ProjectStatus.create now project db).2 in
  ps_created_at row = now
  ∧ (∀ p, p ∈ project_statuses db → ps_id p < ps_id row)
  ∧ (∃ b, ps_build row = Some b ∧ b ∈ builds_table db
          ∧ completed now project b)
  ∧ ProjectStatus.latest project db' = Some row.
Proof.
  intros (b & Hcand & Hdiff & -> & Hdb)%create_Some db'. subst db'.
  rewrite Hdb. clear Hdb.
  pose proof (candidate_spec now project db) as Hspec.
  rewrite Hcand in Hspec. destruct Hspec as (Hin & Hcompleted & _).
  split_and!.
  - done.
  - intros p Hp. by apply next_pk_fresh.
  - by exists b.
  - destruct Hcompleted as [Hproj _].
    exact (latest_after_create now b _ db project Hproj).
Qed.

Lemma create_new_row_witness :
  let db := mkDatabase (builds_table db_six) [] []
              [checkpoint_1; checkpoint_2] in
  let row := mkProjectStatus 3 (Some (build_at 6)) (Some checkpoint_2)
               (10 * hour) in
  ps_created_at row = 10 * hour
  ∧ (∀ p, p ∈ project_statuses db → ps_id p < ps_id row)
  ∧ (∃ b, ps_build row = Some b ∧ b ∈ builds_table db
          ∧ completed (10 * hour) myproject b)
  ∧ ProjectStatus.latest myproject
      (ProjectStatus.create (10 * hour) myproject db).2 = Some row.
Proof.
  exact (create_new_row (10 * hour) myproject
           (mkDatabase (builds_table db_six) [] []
              [checkpoint_1; checkpoint_2])
           (mkProjectStatus 3 (Some (build_at 6)) (Some checkpoint_2)
              (10 * hour)) eq_refl).
Defined.

(** X12. A call of [create] for one project leaves the checkpoints, the
    latest checkpoint and the candidate of every other project as they were,
    so a later [create] for another project decides as it would have
    without the call, on the same build and with the same previous
    checkpoint. *)
Theorem create_other_project (now : datetime) (project other : Project)
    (db : Database) :
  project_id other ≠ project_id project →
  let db' := (ProjectStatus.create now project db).2 in
  ProjectStatus.of_project db' other = ProjectStatus.of_project db other
  ∧ ProjectStatus.latest other db' = ProjectStatus.latest other db
  ∧ ∀ now',
      ProjectStatus.candidate now' other db'
      = ProjectStatus.candidate now' other db
      ∧ ps_build <$> (ProjectStatus.create now' other db').1
        = ps_build <$> (ProjectStatus.create now' other db).1
      ∧ ps_previous <$> (ProjectStatus.create now' other db').1
        = ps_previous <$> (ProjectStatus.create now' other db).1.
Proof.
  intros Hother db'.
  assert (Hdb : db' = db
                ∨ ∃ b, of_project_b project b
                       ∧ builds_table db' = builds_table db
                       ∧ project_statuses db'
                         = project_statuses db
                           ++ [mkProjectStatus (ProjectStatus.next_pk db)
                                 (Some b) (ProjectStatus.latest project db)
                                 now]).
  { subst db'. rewrite create_unfold.
    pose proof (candidate_spec now project db) as Hspec.
    destruct (ProjectStatus.candidate now project db) as [b|]; [|by left].
    destruct (decide (differs_from (ProjectStatus.latest project db) b));
      [|by left].
    right. exists b. by destruct Hspec as (_ & [Hproj _] & _). }
  clearbody db'.
  destruct Hdb as [->|(b & Hproj & Hbuilds & Hps)]; [done|].
  assert (Hof : ProjectStatus.of_project db' other
                = ProjectStatus.of_project db other).
  { unfold ProjectStatus.of_project. rewrite Hps, filter_app.
    rewrite filter_cons_False, filter_nil, app_nil_r; [done|].
    simpl. unfold of_project_b in Hproj. congruence. }
  assert (Hlatest : ProjectStatus.latest other db'
                    = ProjectStatus.latest other db).
  { unfold ProjectStatus.latest. by rewrite Hof. }
  split_and!; [done|done|]. intros now'.
  assert (Hcand : ProjectStatus.candidate now' other db'
                  = ProjectStatus.candidate now' other db)
    by by apply candidate_builds_table.
  split; [done|].
  rewrite !create_unfold, Hcand, Hlatest.
  destruct (ProjectStatus.candidate now' other db) as [b'|]; [|done].
  by destruct (decide (differs_from (ProjectStatus.latest other db) b')).
Qed.

Lemma create_other_project_witness :
  let other := mkProject 2 mygroup "other" 120 in
  let db := mkDatabase
              ((build_at <$> [1; 2; 3]) ++ [mkBuild 7 other "1.0" "1.0" hour])
              [] [] [] in
  let db' := (ProjectStatus.create (10 * hour) myproject db).2 in
  project_statuses db' ≠ project_statuses db
  ∧ ProjectStatus.candidate (20 * hour) other db'
    = ProjectStatus.candidate (20 * hour) other db.
Proof.
  split; [discriminate|].
  refine (proj1 (proj2 (proj2
    (create_other_project (10 * hour) myproject
       (mkProject 2 mygroup "other" 120)
       (mkDatabase
          ((build_at <$> [1; 2; 3])
           ++ [mkBuild 7 (mkProject 2 mygroup "other" 120) "1.0" "1.0" hour])
          [] [] []) _)) (20 * hour))).
  discriminate.
Defined.

(** X13. Two checkpoints made one after the other for a project are chained:
    the second has the first as its previous, a larger primary key and
    another build; when the second call is not earlier than the first and
    no build was removed in between, the build of the second is not older
    than the build of the first. *)
Theorem create_chain (now1 now2 : datetime) (project : Project)
    (db db2 : Database) (row1 row2 : ProjectStatus) :
  (ProjectStatus.create now1 project db).1 = Some row1 →
  project_statuses db2
  = project_statuses (ProjectStatus.create now1 project db).2 →
  (ProjectStatus.create now2 project db2).1 = Some row2 →
  ps_previous row2 = Some row1
  ∧ ps_id row1 < ps_id row2
  ∧ (∃ b1 b2, ps_build row1 = Some b1 ∧ ps_build row2 = Some b2
              ∧ build_id b1 ≠ build_id b2
              ∧ (now1 ≤ now2 →
                 (∀ b, b ∈ builds_table db → b ∈ builds_table db2) →
                 build_datetime b1 ≤ build_datetime b2)).
Proof.
  intros (b1 & Hcand1 & Hdiff1 & Hrow1 & Hdb1)%create_Some Hps.
  intros (b2 & Hcand2 & Hdiff2 & Hrow2 & _)%create_Some.
  rewrite Hdb1 in Hps. simpl in Hps.
  pose proof (candidate_spec now1 project db) as Hspec1.
  rewrite Hcand1 in Hspec1. destruct Hspec1 as (Hin1 & [Hproj1 Hold1] & _).
  pose proof (candidate_spec now2 project db2) as Hspec2.
  rewrite Hcand2 in Hspec2. destruct Hspec2 as (_ & _ & Hmax2).
  assert (Hlatest : ProjectStatus.latest project db2 = Some row1).
  { pose proof (latest_after_create now1 b1
                  (ProjectStatus.latest project db) db project Hproj1) as H.
    simpl in H. rewrite <- Hrow1 in H. rewrite <- H.
    by apply latest_project_statuses. }
  rewrite Hlatest in *. split_and!.
  - by rewrite Hrow2.
  - rewrite Hrow2. simpl. apply next_pk_fresh. rewrite Hps.
    apply elem_of_app. right. by apply list_elem_of_singleton.
  - exists b1, b2. split_and!.
    + by rewrite Hrow1.
    + by rewrite Hrow2.
    + simpl in Hdiff2. rewrite Hrow1 in Hdiff2. simpl in Hdiff2. congruence.
    + intros Hnow Hkept. apply Hmax2; [by apply Hkept|].
      split; [done|]. lia.
Qed.

Lemma create_chain_witness :
  let row1 := mkProjectStatus 1 (Some (build_at 2)) None (5 * hour) in
  let row2 := mkProjectStatus 2 (Some (build_at 6)) (Some row1) (10 * hour) in
  ps_previous row2 = Some row1
  ∧ ps_id row1 < ps_id row2
  ∧ (∃ b1 b2, ps_build row1 = Some b1 ∧ ps_build row2 = Some b2
              ∧ build_id b1 ≠ build_id b2
              ∧ (5 * hour ≤ 10 * hour →
                 (∀ b, b ∈ builds_table db_six → b ∈ builds_table
                    (ProjectStatus.create (5 * hour) myproject db_six).2) →
                 build_datetime b1 ≤ build_datetime b2)).
Proof.
  exact (create_chain (5 * hour) (10 * hour) myproject db_six
           (ProjectStatus.create (5 * hour) myproject db_six).2
           (mkProjectStatus 1 (Some (build_at 2)) None (5 * hour))
           (mkProjectStatus 2 (Some (build_at 6))
              (Some (mkProjectStatus 1 (Some (build_at 2)) None (5 * hour)))
              (10 * hour))
           eq_refl eq_refl eq_refl).
Defined.

(** ** [ProjectStatus.builds], further *)

Lemma builds_unfold db self build prev previous :
  ps_build self = Some build → ps_previous self = Some prev →
  ps_build prev = Some previous →
  ProjectStatus.builds db self
  = Ok (filter (in_window previous build)
          (project_builds db (build_project build))).
Proof.
  intros Hbuild Hprev Hprevious. unfold ProjectStatus.builds.
  rewrite Hprev, Hbuild, Hprevious. simpl. f_equal.
  unfold project_builds at 1. apply order_by_filter.
Qed.

Lemma project_builds_project_id db p1 p2 :
  project_id p1 = project_id p2 → project_builds db p1 = project_builds db p2.
Proof. intros Hid. unfold project_builds. by rewrite Hid. Qed.

(** Two adjoining windows of rows in key order, one after the other, are the
    window that spans both. *)
Lemma filter_window_split {A} (key : A → Z) (a b c : Z) (l : list A) :
  StronglySorted (key_le key) l → a ≤ b → b ≤ c →
  filter (λ x, a < key x ∧ key x ≤ b) l ++ filter (λ x, b < key x ∧ key x ≤ c) l
  = filter (λ x, a < key x ∧ key x ≤ c) l.
Proof.
  intros Hl Hab Hbc. induction Hl as [|x l Hl IH Hx]; [done|].
  rewrite !filter_cons.
  destruct (decide (a < key x ∧ key x ≤ b)) as [H1|H1].
  - rewrite decide_False by lia. rewrite decide_True by lia.
    simpl. by rewrite IH.
  - destruct (decide (b < key x ∧ key x ≤ c)) as [H2|H2].
    + rewrite decide_True by lia.
      assert (Hnil : filter (λ x, a < key x ∧ key x ≤ b) l = []).
      { apply filter_none. eapply Forall_impl; [exact Hx|].
        unfold key_le. intros y Hy. simpl. lia. }
      rewrite Hnil in *. simpl in *. by rewrite IH.
    + rewrite decide_False by lia. done.
Qed.

(** X14. The builds of a checkpoint and the builds of its previous checkpoint,
    one after the other, are the builds of the project from after the
    build of the checkpoint before both up to the checkpoint's own build, in
    order of datetime; no build is in both. *)
Theorem builds_of_consecutive_checkpoints (db : Database)
    (self prev prev0 : ProjectStatus) (build previous previous0 : Build) :
  ps_build self = Some build → ps_previous self = Some prev →
  ps_build prev = Some previous → ps_previous prev = Some prev0 →
  ps_build prev0 = Some previous0 →
  project_id (build_project previous) = project_id (build_project build) →
  build_datetime previous0 ≤ build_datetime previous →
  build_datetime previous ≤ build_datetime build →
  ∃ l1 l2,
    ProjectStatus.builds db prev = Ok l1
    ∧ ProjectStatus.builds db self = Ok l2
    ∧ l1 ++ l2 = filter (in_window previous0 build)
                   (project_builds db (build_project build))
    ∧ StronglySorted (key_le build_datetime) (l1 ++ l2)
    ∧ ∀ b, b ∈ l1 → b ∉ l2.
Proof.
  intros Hbuild Hprev Hprevious Hprev0 Hprevious0 Hproject H01 H12.
  rewrite (builds_unfold db self build prev previous) by done.
  rewrite (builds_unfold db prev previous prev0 previous0) by done.
  rewrite (project_builds_project_id db _ _ Hproject).
  destruct (project_builds_spec db (build_project build)) as [_ Hsorted].
  eexists _, _. split; [done|]. split; [done|].
  assert (Hsplit :
    filter (in_window previous0 previous)
      (project_builds db (build_project build))
    ++ filter (in_window previous build)
         (project_builds db (build_project build))
    = filter (in_window previous0 build)
        (project_builds db (build_project build))).
  { exact (filter_window_split build_datetime
             (build_datetime previous0) (build_datetime previous)
             (build_datetime build) _ Hsorted H01 H12). }
  split_and!.
  - exact Hsplit.
  - rewrite Hsplit. by apply filter_sorted.
  - intros b [H1 _]%list_elem_of_filter [H2 _]%list_elem_of_filter.
    unfold in_window in *. lia.
Qed.

Lemma builds_of_consecutive_checkpoints_witness :
  let checkpoint_3 :=
    mkProjectStatus 3 (Some (build_at 5)) (Some checkpoint_2) (8 * hour) in
  ∃ l1 l2,
    ProjectStatus.builds db_six checkpoint_2 = Ok l1
    ∧ ProjectStatus.builds db_six checkpoint_3 = Ok l2
    ∧ l1 ++ l2 = filter (in_window (build_at 1) (build_at 5))
                   (project_builds db_six (build_project (build_at 5)))
    ∧ StronglySorted (key_le build_datetime) (l1 ++ l2)
    ∧ ∀ b, b ∈ l1 → b ∉ l2.
Proof.
  apply (builds_of_consecutive_checkpoints db_six
           (mkProjectStatus 3 (Some (build_at 5)) (Some checkpoint_2)
              (8 * hour))
           checkpoint_2 checkpoint_1 (build_at 5) (build_at 3) (build_at 1)
           eq_refl eq_refl eq_refl eq_refl eq_refl eq_refl).
  - by vm_compute.
  - by vm_compute.
Defined.

(** X15. The builds of a checkpoint that has a previous one: none when the
    previous build is not older than the checkpoint's own; otherwise, the
    checkpoint's own build being in the table, its build is among them and
    the last of them has its datetime.  No build with the datetime of the
    previous build or older is ever among them. *)
Theorem builds_own_build (db : Database) (self prev : ProjectStatus)
    (build previous : Build) :
  ps_build self = Some build → ps_previous self = Some prev →
  ps_build prev = Some previous →
  ∃ l, ProjectStatus.builds db self = Ok l
       ∧ (build_datetime build ≤ build_datetime previous → l = [])
       ∧ (build_datetime previous < build_datetime build →
          build ∈ builds_table db →
          build ∈ l
          ∧ ∃ b, last l = Some b ∧ build_datetime b = build_datetime build)
       ∧ (∀ b, b ∈ l → build_datetime previous < build_datetime b).
Proof.
  intros Hbuild Hprev Hprevious.
  rewrite (builds_unfold db self build prev previous) by done.
  destruct (project_builds_spec db (build_project build)) as [Hperm Hsorted].
  eexists. split; [done|]. split_and!.
  - intros Hle. apply filter_none, Forall_forall. intros b _.
    unfold in_window. lia.
  - intros Hlt Hin.
    assert (Hown : build ∈ filter (in_window previous build)
                     (project_builds db (build_project build))).
    { apply list_elem_of_filter. split; [unfold in_window; lia|].
      rewrite Hperm. by apply list_elem_of_filter. }
    split; [done|].
    destruct (last (filter (in_window previous build)
                      (project_builds db (build_project build))))
      as [b|] eqn:Hlast.
    + exists b. split; [done|].
      assert (Hb := last_Some_elem_of _ _ Hlast).
      apply list_elem_of_filter in Hb as [[_ Hb] _].
      pose proof (last_sorted_max build_datetime _ b
                    (filter_sorted build_datetime _ _ Hsorted)
                    Hlast build Hown).
      lia.
    + apply last_None in Hlast. rewrite Hlast in Hown.
      by apply elem_of_nil in Hown.
  - by intros b [[Hb _] _]%list_elem_of_filter.
Qed.

Lemma builds_own_build_witness :
  ∃ l, ProjectStatus.builds db_three checkpoint_2 = Ok l
       ∧ (build_datetime (build_at 3) ≤ build_datetime (build_at 1) → l = [])
       ∧ (build_datetime (build_at 1) < build_datetime (build_at 3) →
          build_at 3 ∈ builds_table db_three →
          build_at 3 ∈ l
          ∧ ∃ b, last l = Some b
                 ∧ build_datetime b = build_datetime (build_at 3))
       ∧ (∀ b, b ∈ l → build_datetime (build_at 1) < build_datetime b).
Proof.
  exact (builds_own_build db_three checkpoint_2 checkpoint_1
           (build_at 3) (build_at 1) eq_refl eq_refl eq_refl).
Defined.

(** X16. [builds] raises [AttributeError] exactly when the checkpoint has no
    build, or has a previous checkpoint that has no build; in every other
    case it returns a list. *)
Theorem builds_raises (db : Database) (self : ProjectStatus) :
  (ProjectStatus.builds db self = Raise AttributeError
   ↔ ps_build self = None
     ∨ ∃ prev, ps_previous self = Some prev ∧ ps_build prev = None)
  ∧ (ProjectStatus.builds db self = Raise AttributeError
     ∨ ∃ l, ProjectStatus.builds db self = Ok l).
Proof.
  unfold ProjectStatus.builds.
  destruct (ps_previous self) as [prev|], (ps_build self) as [build|];
    simpl; try destruct (ps_build prev) as [previous|] eqn:Hp; simpl.
  - split; [|eauto]. split; [done|]. intros [?|(prev' & [= <-] & ?)]; congruence.
  - split; [|eauto]. split; [|done]. intros _. right. by exists prev.
  - split; [|eauto]. split; [|done]. by left.
  - split; [|eauto]. split; [|done]. by left.
  - split; [|eauto]. split; [done|]. intros [?|(prev' & ? & ?)]; congruence.
  - split; [|eauto]. split; [|done]. by left.
Qed.

(** X17. The builds of a checkpoint that [create] has just made never raise:
    they are builds of the project from the builds table, and the
    checkpoint's own build is among them unless the previous checkpoint is
    on a build that is not older. *)
Theorem builds_after_create (now : datetime) (project : Project)
    (db : Database) (row : ProjectStatus) :
  (ProjectStatus.create now project db).1 = Some row →
  ∃ b l,
    ps_build row = Some b
    ∧ ProjectStatus.builds (ProjectStatus.create now project db).2 row = Ok l
    ∧ (∀ x, x ∈ l → x ∈ builds_table db ∧ of_project_b project x)
    ∧ ((∀ p pb, ps_previous row = Some p → ps_build p = Some pb →
                build_datetime pb < build_datetime b) →
       b ∈ l).
Proof.
  rewrite create_unfold.
  pose proof (candidate_spec now project db) as Hcand.
  pose proof (latest_spec project db) as Hlatest.
  destruct (ProjectStatus.candidate now project db) as [b|]; [|done].
  destruct (decide (differs_from (ProjectStatus.latest project db) b));
    [|done].
  simpl. intros [= <-]. exists b.
  destruct Hcand as (Hin & [Hproj _] & _). unfold of_project_b in Hproj.
  set (db' := mkDatabase _ _ _ _).
  assert (Hbuilds : ∀ x, x ∈ project_builds db' (build_project b)
                         ↔ x ∈ builds_table db ∧ of_project_b project x).
  { intros x.
    destruct (project_builds_spec db' (build_project b)) as [Hperm _].
    rewrite Hperm, list_elem_of_filter. unfold of_project_b. simpl.
    split; intros [? ?]; split; try done; congruence. }
  destruct (ProjectStatus.latest project db) as [p|] eqn:Hp.
  - destruct Hlatest as (_ & Hon & _). unfold on_project in Hon.
    destruct (ps_build p) as [pb|] eqn:Hpb; [|done].
    rewrite (builds_unfold db' _ b p pb) by done.
    eexists. split; [done|]. split; [done|]. split.
    + intros x [_ Hx]%list_elem_of_filter. by apply Hbuilds.
    + intros Holder. apply list_elem_of_filter. split.
      * unfold in_window. specialize (Holder p pb eq_refl Hpb). simpl. lia.
      * by apply Hbuilds.
  - unfold ProjectStatus.builds. simpl.
    eexists. split; [done|]. split; [done|]. split.
    + intros x Hx. by apply Hbuilds.
    + intros _. by apply Hbuilds.
Qed.

Lemma builds_after_create_witness :
  let db := mkDatabase (builds_table db_six) [] []
              [checkpoint_1; checkpoint_2] in
  let row := mkProjectStatus 3 (Some (build_at 6)) (Some checkpoint_2)
               (10 * hour) in
  ∃ b l,
    ps_build row = Some b
    ∧ ProjectStatus.builds (ProjectStatus.create (10 * hour) myproject db).2
        row = Ok l
    ∧ (∀ x, x ∈ l → x ∈ builds_table db ∧ of_project_b myproject x)
    ∧ ((∀ p pb, ps_previous row = Some p → ps_build p = Some pb →
                build_datetime pb < build_datetime b) →
       b ∈ l).
Proof.
  exact (builds_after_create (10 * hour) myproject
           (mkDatabase (builds_table db_six) [] []
              [checkpoint_1; checkpoint_2])
           (mkProjectStatus 3 (Some (build_at 6)) (Some checkpoint_2)
              (10 * hour)) eq_refl).
Defined.

(** ** [Status]: the range of the percentages, and the edges *)

(** Rounding a non-negative number that is at most 100 gives a double that
    is at most 100. *)
Lemma normalize_le_100 (M e : Z) :
  0 ≤ M → e ≤ -46 → M ≤ hundred_m * 2 ^ (-46 - e) →
  le_100 (binary_normalize prec emax M e false).
Proof.
  intros HM0 He HM. destruct M as [|p|p]; [done| |lia].
  cbn [binary_normalize]. rewrite bround_shape, fexp_eq.
  pose proof (digits_bounds p) as [Hlo Hhi].
  set (d := Zpos (digits2_pos p)) in *.
  pose proof hundred_m_bounds as [Hclo Hchi].
  set (P := 2 ^ (-46 - e)) in *.
  assert (HP : 0 < P) by (apply Z.pow_pos_nonneg; lia).
  assert (Hd : 0 < d ∧ d + e ≤ 7).
  { split; [unfold d; lia|].
    assert (d - 1 < 53 + (-46 - e)); [|lia].
    apply pow2_lt_inv; [unfold d; lia|lia|].
    rewrite pow2_split by lia. fold P. nia. }
  set (E := Z.max (d + e - 53) (-1074)).
  assert (HE : E ≤ -46 ∧ -1074 ≤ E ∧ d + e - 53 ≤ E) by (unfold E; lia).
  assert (HPE : 0 < 2 ^ (-46 - E)) by (apply Z.pow_pos_nonneg; lia).
  destruct (Z.leb_spec E e) as [HEe|HEe].
  - assert (Hpe : 0 < 2 ^ (e - E)) by (apply Z.pow_pos_nonneg; lia).
    assert (Hsplit : 2 ^ (-46 - E) = P * 2 ^ (e - E)).
    { unfold P. rewrite <- pow2_split by lia. f_equal. lia. }
    assert (Hlt : Zpos p * 2 ^ (e - E) < 2 ^ 53).
    { apply Z.lt_le_trans with (2 ^ d * 2 ^ (e - E)).
      - apply Z.mul_lt_mono_pos_r; lia.
      - rewrite <- pow2_split by lia. apply Z.pow_le_mono_r; lia. }
    unfold finish.
    destruct (Z.eqb_spec (Zpos p * 2 ^ (e - E)) 0); [lia|].
    destruct (Z.ltb_spec (Zpos p * 2 ^ (e - E)) (2 ^ 53)); [|lia].
    destruct (Z.leb_spec E 971); [|lia].
    cbv beta iota delta [le_100]. split; [lia|].
    rewrite Z2Pos.id by lia. rewrite Hsplit. nia.
  - set (k := E - e) in *.
    assert (Hk : 0 < k) by lia.
    assert (Hpk : 0 < 2 ^ k) by (apply Z.pow_pos_nonneg; lia).
    destruct (rounded_nearest (Zpos p) k ltac:(lia) Hk) as [Hnear _].
    pose proof (rounded_bounds (Zpos p) loc_Exact k ltac:(lia)) as Hb.
    rewrite Z.max_l in Hb by lia.
    set (m2 := rounded (Zpos p) loc_Exact k) in *.
    assert (Hsplit : P = 2 ^ (-46 - E) * 2 ^ k).
    { unfold P. rewrite <- pow2_split by lia. f_equal. lia. }
    assert (Hm2lo : 0 ≤ m2).
    { eapply Z.le_trans; [|apply Hb]. apply Z.div_pos; lia. }
    assert (Hbound : m2 ≤ hundred_m * 2 ^ (-46 - E)).
    { rewrite Hsplit in HM.
      destruct (Z.le_gt_cases m2 (hundred_m * 2 ^ (-46 - E))) as [|Hgt];
        [done|exfalso].
      assert ((hundred_m * 2 ^ (-46 - E) + 1) * 2 ^ k ≤ m2 * 2 ^ k).
      { apply Z.mul_le_mono_nonneg_r; lia. }
      nia. }
    unfold finish.
    destruct (Z.eqb_spec m2 0); [done|].
    destruct (Z.ltb_spec m2 (2 ^ 53)).
    + destruct (Z.leb_spec E 971); [|lia].
      cbv beta iota delta [le_100]. split; [lia|]. by rewrite Z2Pos.id by lia.
    + destruct (Z.leb_spec (E + 1) 971); [|lia].
      cbv beta iota delta [le_100].
      change (Zpos (Z.to_pos (2 ^ 52))) with (2 ^ 52).
      assert (He47 : E ≤ -47).
      { destruct (Z.eq_dec E (-46)) as [HE46|]; [|lia].
        rewrite HE46 in Hbound. change (2 ^ (-46 - -46)) with 1 in Hbound.
        lia. }
      split; [lia|].
      assert (Hsplit' : 2 ^ (-46 - E) = 2 * 2 ^ (-46 - (E + 1))).
      { rewrite <- Z.pow_succ_r by lia. f_equal. lia. }
      rewrite Hsplit' in Hbound.
      change (2 ^ 53) with (2 * 2 ^ 52) in *. lia.
Qed.

(** [100 - x] is a double from 0 to 100 when [x] is. *)
Lemma sub_le_100 (X : spec_float) : le_100 X → le_100 (SF64sub SF_100 X).
Proof.
  destruct X as [[]| | |[] m e]; try done. intros [He Hm].
  unfold SF_100 at 1. rewrite SFsub_finite.
  replace (Z.min (-46) e) with e by lia.
  replace (e - e) with 0 by lia. rewrite Z.mul_1_r. fold hundred_m.
  assert (0 < 2 ^ (-46 - e)) by (apply Z.pow_pos_nonneg; lia).
  apply normalize_le_100; lia.
Qed.

Lemma compare_cont_le (m n : positive) :
  Zpos m ≤ Zpos n → PosDef.Pos.compare_cont Eq m n ≠ Gt.
Proof.
  intros Hle Hc. assert (Hgt : (m ?= n)%positive = Gt) by exact Hc.
  apply Pos.compare_gt_iff in Hgt. lia.
Qed.

Lemma le_100_leb (X : spec_float) :
  le_100 X → SFleb (S754_zero false) X = true ∧ SFleb X SF_100 = true.
Proof.
  destruct X as [[]| | |[] m e]; try done. intros [He Hm].
  split; [done|]. unfold SFleb, SFcompare, SF_100.
  destruct (Z.compare_spec e (-46)) as [->| |]; [|done|lia].
  change (2 ^ (-46 - -46)) with 1 in Hm. unfold hundred_m in Hm.
  rewrite Z.mul_1_r in Hm.
  pose proof (compare_cont_le m hundred_p Hm) as Hc.
  by destruct (PosDef.Pos.compare_cont Eq m hundred_p).
Qed.

Lemma in_percent_range_float (x : float) :
  le_100 (Prim2SF x) → in_percent_range (PyFloat x) = true.
Proof.
  intros [H0 H100]%le_100_leb. unfold in_percent_range.
  rewrite !leb_spec, Prim2SF_float_100.
  change (Prim2SF zero) with (S754_zero false).
  by rewrite H0, H100.
Qed.

(** X18. For a status whose counts are counts, neither percentage raises and
    both lie between 0 and 100. *)
Theorem percentages_in_range (self : Status) :
  is_count (tests_pass self) → is_count (tests_fail self) →
  ∃ p f,
    Status.pass_percentage self = Ok p
    ∧ Status.fail_percentage self = Ok f
    ∧ in_percent_range p = true
    ∧ in_percent_range f = true.
Proof.
  intros Hp%count_range Hf%count_range.
  assert (H53 : 2 ^ 32 + 2 ^ 32 < 2 ^ 53) by done.
  unfold Status.fail_percentage.
  destruct (Z.eq_dec (tests_pass self) 0) as [H0|Hne].
  - unfold Status.pass_percentage. rewrite H0. simpl.
    by exists (PyInt 0), (PyInt 100).
  - rewrite pass_percentage_float by lia. simpl.
    eexists _, _. split; [done|]. split; [done|].
    unfold Status.total_tests.
    set (p := tests_pass self) in *. set (t := p + tests_fail self).
    destruct (Prim2SF_int p ltac:(lia)) as (Hfp & _ & _).
    destruct (Prim2SF_int t ltac:(unfold t; lia)) as (Hft & _ & _).
    assert (Hx : le_100 (Prim2SF (float_100
                  * (SF2Prim (int_float p) / SF2Prim (int_float t))))).
    { rewrite mul_spec, div_spec, Prim2SF_float_100, Hfp, Hft.
      apply mul_le_100, div_le_one; unfold t; lia. }
    split; apply in_percent_range_float; [done|].
    rewrite sub_spec, Prim2SF_float_100. by apply sub_le_100.
Qed.

Lemma percentages_in_range_witness :
  ∃ p f,
    Status.pass_percentage (mkStatus 1 2) = Ok p
    ∧ Status.fail_percentage (mkStatus 1 2) = Ok f
    ∧ in_percent_range p = true
    ∧ in_percent_range f = true.
Proof.
  apply (percentages_in_range (mkStatus 1 2)).
  - unfold is_count, integer_field_max. simpl. lia.
  - unfold is_count, integer_field_max. simpl. lia.
Defined.

(** A count divided by itself is the double 1. *)
Lemma div_self (p : Z) :
  0 < p < 2 ^ 53 →
  SF64div (int_float p) (int_float p) = Prim2SF one.
Proof.
  intros Hp.
  destruct (int_float_spec p Hp) as (m & d & Hd & Hpb & Hm & Hdm & Hf & _).
  rewrite Hf. unfold SF64div, SFdiv.
  rewrite div_core_53 by (done || lia).
  rewrite (Z.mul_comm (Zpos m)), Z.div_mul, Z.mod_mul by lia.
  rewrite new_location_0.
  replace (d - 53 - (d - 53) - 53) with (-53) by lia.
  by vm_compute.
Qed.

(** X19. When every test passed (at least one, none failed) pass_percentage
    is the double 100.0 and fail_percentage the double 0.0. *)
Theorem percentages_all_pass (self : Status) :
  is_count (tests_pass self) → 0 < tests_pass self → tests_fail self = 0 →
  Status.pass_percentage self = Ok (PyFloat float_100)
  ∧ Status.fail_percentage self = Ok (PyFloat zero).
Proof.
  intros Hp%count_range Hpos Hfail.
  assert (H53 : 2 ^ 32 < 2 ^ 53) by done.
  assert (Hpass : Status.pass_percentage self = Ok (PyFloat float_100)).
  { rewrite pass_percentage_float by lia. unfold Status.total_tests.
    rewrite Hfail, Z.add_0_r. do 2 f_equal.
    destruct (Prim2SF_int (tests_pass self) ltac:(lia)) as (Hprim & _ & _).
    apply Prim2SF_inj.
    rewrite mul_spec, div_spec, Hprim, div_self by lia.
    by vm_compute. }
  split; [done|]. unfold Status.fail_percentage. rewrite Hpass. simpl.
  do 2 f_equal.
Qed.

Lemma percentages_all_pass_witness :
  Status.pass_percentage (mkStatus 7 0) = Ok (PyFloat float_100)
  ∧ Status.fail_percentage (mkStatus 7 0) = Ok (PyFloat zero).
Proof.
  apply (percentages_all_pass (mkStatus 7 0)).
  - unfold is_count, integer_field_max. simpl. lia.
  - simpl. lia.
  - reflexivity.
Defined.

(** X20. A status with passed tests whose total is nevertheless zero (the
    failed count the negative of the passed one) has no tests by
    [has_tests], and both percentages raise [ZeroDivisionError]. *)
Theorem percentages_zero_total (self : Status) :
  0 < tests_pass self < 2 ^ 53 → tests_fail self = - tests_pass self →
  Status.has_tests self = false
  ∧ Status.pass_percentage self = Raise ZeroDivisionError
  ∧ Status.fail_percentage self = Raise ZeroDivisionError.
Proof.
  intros Hp Hfail.
  assert (Hpass : Status.pass_percentage self = Raise ZeroDivisionError).
  { unfold Status.pass_percentage, Status.total_tests.
    destruct (Z.ltb_spec 0 (tests_pass self)); [|lia].
    destruct (py_float_count (tests_pass self) Hp) as [-> _].
    rewrite Hfail, Z.add_opp_diag_r. reflexivity. }
  split_and!.
  - unfold Status.has_tests. rewrite Hfail, Z.add_opp_diag_r. reflexivity.
  - done.
  - unfold Status.fail_percentage. by rewrite Hpass.
Qed.

Lemma percentages_zero_total_witness :
  Status.has_tests (mkStatus 3 (-3)) = false
  ∧ Status.pass_percentage (mkStatus 3 (-3)) = Raise ZeroDivisionError
  ∧ Status.fail_percentage (mkStatus 3 (-3)) = Raise ZeroDivisionError.
Proof.
  apply (percentages_zero_total (mkStatus 3 (-3))).
  - simpl. split; [lia|reflexivity].
  - reflexivity.
Defined.

(** ** Slugs and [Project.full_name] *)

Lemma slug_validator_first (s : string) :
  slug_validator s = true
  ↔ ∃ c rest, s = String c rest ∧ slug_first c = true.
Proof.
  unfold slug_validator, slug_search. destruct s as [|c rest].
  - split; [done|]. by intros (? & ? & ? & _).
  - destruct (slug_first c) eqn:Hc.
    + split; [|done]. intros _. by exists c, rest.
    + split; [done|]. intros (? & ? & [= <- <-] & ?). congruence.
Qed.

Lemma match_star_spec (class : ascii → bool) (s : string) :
  (match_star class s ≤ String.length s)%nat
  ∧ (∀ i c, (i < match_star class s)%nat → String.get i s = Some c →
            class c = true)
  ∧ (∀ c, String.get (match_star class s) s = Some c → class c = false).
Proof.
  induction s as [|c0 s (IH1 & IH2 & IH3)]; simpl.
  - split_and!; [lia| |done]. intros; lia.
  - destruct (class c0) eqn:Hc0; simpl.
    + split_and!; [lia| |done].
      intros [|i] c Hi; simpl; [by intros [= <-]|].
      apply IH2. lia.
    + split_and!; [lia| |by intros c [= <-]]. intros; lia.
Qed.

Lemma slug_validator_append (s t : string) :
  slug_validator s = true → slug_validator (String.append s t) = true.
Proof.
  rewrite !slug_validator_first. intros (c & rest & -> & Hc).
  by exists c, (String.append rest t).
Qed.

(** X21. The slug validator accepts a text exactly when its first character
    is an ASCII letter or digit: the match it finds is the longest run of
    slug characters at the start, and whatever follows the match is not
    looked at, so a valid slug followed by any text is accepted too. *)
Theorem slug_validator_accepts (s t : string) :
  (slug_validator s = true
   ↔ ∃ c rest, s = String c rest ∧ slug_first c = true)
  ∧ (∀ n, slug_search s = Some n →
       (1 ≤ n ≤ String.length s)%nat
       ∧ (∀ i c, (i < n)%nat → String.get i s = Some c → slug_rest c = true)
       ∧ (∀ c, String.get n s = Some c → slug_rest c = false))
  ∧ (slug_validator s = true → slug_validator (String.append s t) = true).
Proof.
  split_and!.
  - apply slug_validator_first.
  - unfold slug_search. destruct s as [|c0 rest]; [done|].
    destruct (slug_first c0) eqn:Hc0; [|done]. intros n [= <-].
    destruct (match_star_spec slug_rest rest) as (H1 & H2 & H3).
    simpl. split_and!; [lia|lia| |done].
    intros [|i] c Hi; simpl.
    + intros [= <-]. unfold slug_rest. by rewrite Hc0.
    + apply H2. lia.
  - apply slug_validator_append.
Qed.

Lemma append_cons (x : ascii) (a b : string) :
  String.append (String x a) b = String x (String.append a b).
Proof. reflexivity. Qed.

Lemma append_assoc (a b c : string) :
  String.append (String.append a b) c = String.append a (String.append b c).
Proof.
  induction a as [|x a IH]; [done|]. rewrite !append_cons. by f_equal.
Qed.

Lemma append_length (a b : string) :
  String.length (String.append a b)
  = (String.length a + String.length b)%nat.
Proof.
  induction a as [|x a IH]; [done|]. rewrite append_cons. simpl. by f_equal.
Qed.

Lemma append_slash_inj (g1 g2 s1 s2 : string) :
  no_slash g1 → no_slash g2 →
  String.append g1 (String "/" s1) = String.append g2 (String "/" s2) →
  g1 = g2 ∧ s1 = s2.
Proof.
  revert g2. induction g1 as [|c1 g1 IH]; intros [|c2 g2] H1 H2; simpl.
  - by intros [= ->].
  - intros [= <- _]. by destruct (H2 O).
  - intros [= -> _]. by destruct (H1 O).
  - intros [= -> Heq].
    assert (Hn1 : no_slash g1) by (intros i; apply (H1 (S i))).
    assert (Hn2 : no_slash g2) by (intros i; apply (H2 (S i))).
    by destruct (IH g2 Hn1 Hn2 Heq) as [-> ->].
Qed.

(** X22. The full name of a project is the slug of its group, a slash, and
    its own slug; between groups whose slugs hold no slash, two projects
    with the same full name have the same group slug and the same slug. *)
Theorem full_name_injective (p1 p2 : Project) :
  no_slash (group_slug (project_group p1)) →
  no_slash (group_slug (project_group p2)) →
  Project.full_name p1 = Project.full_name p2 →
  group_slug (project_group p1) = group_slug (project_group p2)
  ∧ project_slug p1 = project_slug p2.
Proof.
  unfold Project.full_name, Group.__str__. rewrite !append_assoc.
  apply append_slash_inj.
Qed.

Lemma full_name_injective_witness :
  group_slug (project_group myproject) = group_slug mygroup
  ∧ project_slug myproject = "myproject"%string.
Proof.
  apply (full_name_injective myproject
           (mkProject 2 mygroup "myproject" 60)).
  - intros i. by do 8 (destruct i as [|i]; [done|]).
  - intros i. by do 8 (destruct i as [|i]; [done|]).
  - reflexivity.
Defined.

(** X23. The slug validator does not keep the slash out of slugs, and then
    the full name does not tell projects apart: for valid slugs [a], [b]
    and [c], the group [a/b] and the project slug [b/c] are accepted, and
    project [c] of group [a/b] has the full name of project [b/c] of group
    [a]. *)
Theorem full_name_ambiguous (a b c : string) (p1 p2 : Project) :
  slug_validator a = true → slug_validator b = true →
  group_slug (project_group p1) = String.append a (String.append "/" b) →
  project_slug p1 = c →
  group_slug (project_group p2) = a →
  project_slug p2 = String.append b (String.append "/" c) →
  slug_validator (group_slug (project_group p1)) = true
  ∧ slug_validator (project_slug p2) = true
  ∧ Project.full_name p1 = Project.full_name p2
  ∧ group_slug (project_group p1) ≠ group_slug (project_group p2).
Proof.
  intros Ha Hb Hg1 Hs1 Hg2 Hs2.
  unfold Project.full_name, Group.__str__. rewrite Hg1, Hs1, Hg2, Hs2.
  split_and!.
  - by apply slug_validator_append.
  - by apply slug_validator_append.
  - by rewrite !append_assoc.
  - intros Heq. apply (f_equal String.length) in Heq.
    rewrite append_length in Heq. simpl in Heq. lia.
Qed.

Lemma full_name_ambiguous_witness :
  let p1 := mkProject 1 (mkGroup 1 "a/b") "c" 120 in
  let p2 := mkProject 2 (mkGroup 2 "a") "b/c" 120 in
  slug_validator (group_slug (project_group p1)) = true
  ∧ slug_validator (project_slug p2) = true
  ∧ Project.full_name p1 = Project.full_name p2
  ∧ group_slug (project_group p1) ≠ group_slug (project_group p2).
Proof.
  exact (full_name_ambiguous "a" "b" "c"
           (mkProject 1 (mkGroup 1 "a/b") "c" 120)
           (mkProject 2 (mkGroup 2 "a") "b/c" 120)
           eq_refl eq_refl eq_refl eq_refl eq_refl eq_refl).
Defined.

(** ** [Metric.measurement_list] *)

Lemma concat_cons (sep x y : string) (l : list string) :
  String.concat sep (x :: y :: l)
  = String.append x (String.append sep (String.concat sep (y :: l))).
Proof. reflexivity. Qed.

Lemma split_comma_spec (s : string) :
  let '(piece, pieces) := split_comma s in
  String.concat "," (piece :: pieces) = s
  ∧ Forall (λ p, commas p = O) (piece :: pieces)
  ∧ length pieces = commas s.
Proof.
  induction s as [|c s IH].
  - simpl. split_and!; [done|by repeat constructor|done].
  - cbn [split_comma commas].
    destruct (split_comma s) as [piece pieces].
    destruct IH as (Hjoin & Hpieces & Hlen).
    destruct (Ascii.eqb_spec c ","%char) as [->|Hc]; cbn beta iota.
    + split_and!.
      * rewrite concat_cons, Hjoin. reflexivity.
      * by constructor.
      * simpl. by rewrite Hlen.
    + apply Forall_cons in Hpieces as [Hpiece Hpieces]. split_and!.
      * destruct pieces as [|p pieces].
        -- simpl in *. by rewrite Hjoin.
        -- rewrite concat_cons in *. by rewrite append_cons, Hjoin.
      * constructor; [|done]. simpl.
        by destruct (Ascii.eqb_spec c ","%char).
      * done.
Qed.

Lemma split_comma_trailing (text : string) :
  str_split (String.append text ",") = str_split text ++ [""%string].
Proof.
  unfold str_split. induction text as [|c text IH]; [done|].
  rewrite append_cons. simpl.
  destruct (split_comma (String.append text ",")) as [p ps].
  destruct (split_comma text) as [q qs].
  injection IH as -> ->.
  by destruct (Ascii.eqb c ","%char).
Qed.

Lemma str_split_pieces (s : string) :
  String.concat "," (str_split s) = s
  ∧ Forall (λ p, commas p = O) (str_split s)
  ∧ length (str_split s) = S (commas s).
Proof.
  unfold str_split. pose proof (split_comma_spec s) as H.
  destruct (split_comma s) as [piece pieces].
  destruct H as (H1 & H2 & H3). split_and!; [done|done|].
  simpl. by rewrite H3.
Qed.

(** X24. [split(',')] cuts a text at its commas: the pieces joined by commas
    are the text again, no piece holds a comma, and there is one piece more
    than there are commas; a comma at the end of a text adds an empty last
    piece. *)
Theorem str_split_spec (s : string) :
  String.concat "," (str_split s) = s
  ∧ Forall (λ p, commas p = O) (str_split s)
  ∧ length (str_split s) = S (commas s)
  ∧ (∀ text, str_split (String.append text ",")
             = str_split text ++ [""%string]).
Proof.
  destruct (str_split_pieces s) as (H1 & H2 & H3).
  split_and!; [done|done|done|]. apply split_comma_trailing.
Qed.

Lemma mapM_result_ok {A B} (f : A → result B) (l : list A) (k : list B) :
  Forall2 (λ a b, f a = Ok b) l k → mapM f l = Ok k.
Proof.
  induction 1 as [|a b l k Hab _ IH]; simpl; [done|].
  rewrite Hab. simpl. rewrite IH. done.
Qed.

Lemma mapM_result_raise {A B} (f : A → result B) (pre post : list A)
    (a : A) (e : exn) :
  Forall (λ a, ∃ b, f a = Ok b) pre → f a = Raise e →
  mapM f (pre ++ a :: post) = Raise e.
Proof.
  intros Hpre Ha. induction Hpre as [|a' pre [b Hb] _ IH]; simpl.
  - by rewrite Ha.
  - rewrite Hb. simpl. by rewrite IH.
Qed.

(** X25. The measurement list of a metric is empty when the stored text is
    empty, whatever the conversion does; otherwise, every piece between
    commas being a number, it is the list of the numbers of the pieces in
    order, one more than there are commas. *)
Theorem measurement_list_values (float_ : string → result float)
    (self : Metric) :
  (measurements self = ""%string →
   Metric.measurement_list float_ self = Ok [])
  ∧ (∀ values,
       measurements self ≠ ""%string →
       Forall2 (λ piece value, float_ piece = Ok value)
         (str_split (measurements self)) values →
       Metric.measurement_list float_ self = Ok values
       ∧ length values = S (commas (measurements self))).
Proof.
  unfold Metric.measurement_list. split.
  - by intros ->.
  - intros values Hne Hvalues. split.
    + destruct (measurements self) as [|c s]; [done|]. simpl.
      by apply mapM_result_ok.
    + apply Forall2_length in Hvalues. rewrite <- Hvalues.
      apply str_split_pieces.
Qed.

(** X26. The measurement list of a metric whose stored text is not empty
    raises the error of the first piece that is not a number: the pieces
    before it were converted, the pieces after it are not looked at. *)
Theorem measurement_list_raises (float_ : string → result float)
    (self : Metric) (pre post : list string) (piece : string) (e : exn) :
  measurements self ≠ ""%string →
  str_split (measurements self) = pre ++ piece :: post →
  Forall (λ p, ∃ value, float_ p = Ok value) pre →
  float_ piece = Raise e →
  Metric.measurement_list float_ self = Raise e.
Proof.
  intros Hne Hsplit Hpre Hpiece. unfold Metric.measurement_list.
  destruct (measurements self) as [|c s] eqn:Hm; [done|].
  simpl. rewrite Hsplit. by apply mapM_result_raise.
Qed.

Lemma measurement_list_raises_witness :
  Metric.measurement_list
    (λ s, if String.eqb s "x" then Raise ValueError else Ok one)
    (mkMetric "m" "1,x,2")
  = Raise ValueError.
Proof.
  apply (measurement_list_raises _ (mkMetric "m" "1,x,2")
           ["1"%string] ["2"%string] "x"%string ValueError).
  - discriminate.
  - reflexivity.
  - repeat constructor. by exists one.
  - reflexivity.
Defined.

(** X27. A stored text that ends in a comma has an empty last piece: with
    every piece before it a number, the measurement list raises the error
    that the conversion of the empty text raises. *)
Theorem measurement_list_trailing_comma (float_ : string → result float)
    (self : Metric) (text : string) (e : exn) :
  measurements self = String.append text "," →
  Forall (λ p, ∃ value, float_ p = Ok value) (str_split text) →
  float_ ""%string = Raise e →
  last (str_split (measurements self)) = Some ""%string
  ∧ Metric.measurement_list float_ self = Raise e.
Proof.
  intros Hm Hpre Hempty. rewrite Hm, split_comma_trailing. split.
  - apply last_snoc.
  - unfold Metric.measurement_list. rewrite Hm.
    replace (truthy (Some (String.append text ","))) with true
      by (by destruct text).
    rewrite split_comma_trailing. by apply mapM_result_raise.
Qed.

Lemma measurement_list_trailing_comma_witness :
  last (str_split "1,2,") = Some ""%string
  ∧ Metric.measurement_list
      (λ s, if String.eqb s "" then Raise ValueError else Ok one)
      (mkMetric "m" "1,2,")
    = Raise ValueError.
Proof.
  apply (measurement_list_trailing_comma _ (mkMetric "m" "1,2,")
           "1,2"%string ValueError).
  - reflexivity.
  - repeat constructor; by exists one.
  - reflexivity.
Defined.
